(** * react-native-fs (Siphon sandboxed fork): FS.common.js

    A shallow embedding of [FS.common.js] and the properties of its path
    sandboxing, job numbering and operation facade.

    - [JsString]: the string primitives the file uses ([indexOf], [split],
      [join], [substring], [slice(-1)]).
    - [Path]: [processDirPath], [normalizePath], [rootDir].
    - [Facade]: the [RNFS] object; promises are run to settlement against an
      oracle for the native module, and every call on the native module, on
      an event emitter or on the console is recorded in a trace. *)

From Stdlib Require Import String Ascii List ZArith Lia Bool Arith.
From Stdlib Require Import DecimalString Sorted.
Import ListNotations.
Local Open Scope list_scope.
Local Open Scope string_scope.

(* ------------------------------------------------------------------ *)
(** ** JavaScript strings *)
(* ------------------------------------------------------------------ *)

(** A string is a sequence of characters.  The file compares characters
    with ["/"], [":"] and ["."] only and otherwise moves them around, so
    what a character is plays no part. *)
Module JsString.

(** [startsWith p s]: [p] occurs in [s] at position 0. *)
Fixpoint startsWith (p s : string) : bool :=
  match p, s with
  | EmptyString, _ => true
  | String _ _, EmptyString => false
  | String a p', String b s' => Ascii.eqb a b && startsWith p' s'
  end.

(** [drop n s] is [s.substring(n)]. *)
Fixpoint drop (n : nat) (s : string) : string :=
  match n, s with
  | O, _ => s
  | S _, EmptyString => EmptyString
  | S n', String _ s' => drop n' s'
  end.

(** [take n s] is [s.substring(0, n)]. *)
Fixpoint take (n : nat) (s : string) : string :=
  match n, s with
  | O, _ => EmptyString
  | S _, EmptyString => EmptyString
  | S n', String c s' => String c (take n' s')
  end.

(** [s.substring(start, end)], for [start <= end] as in all uses here. *)
Definition substring (start end_ : nat) (s : string) : string :=
  take (end_ - start) (drop start s).

(** [s.slice(-1)]: the last character, or the empty string. *)
Fixpoint slice_last (s : string) : string :=
  match s with
  | EmptyString => EmptyString
  | String c EmptyString => String c EmptyString
  | String _ s' => slice_last s'
  end.

(** [cut sep s] cuts [s] at the first occurrence of [sep]: the text before
    it and the text after it. *)
Fixpoint cut (sep s : string) : option (string * string) :=
  if startsWith sep s then Some (EmptyString, drop (String.length sep) s)
  else match s with
       | EmptyString => None
       | String c s' =>
           match cut sep s' with
           | Some (a, b) => Some (String c a, b)
           | None => None
           end
       end.

(** [s.indexOf(sep)]: position of the first occurrence, or -1. *)
Definition indexOf (sep s : string) : Z :=
  match cut sep s with
  | Some (a, _) => Z.of_nat (String.length a)
  | None => (-1)%Z
  end.

(** [s.split(sep)] for a non-empty [sep] (the file only splits on ["://"]
    and ["/"]): occurrences are taken left to right, without overlap.  The
    recursion is on a bound: every cut shortens the string. *)
Fixpoint split_upto (n : nat) (sep s : string) : list string :=
  match n with
  | O => [s]
  | S n' =>
      match cut sep s with
      | None => [s]
      | Some (a, b) => a :: split_upto n' sep b
      end
  end.

Definition split (sep s : string) : list string :=
  split_upto (String.length s) sep s.

(** [parts.join(sep)]. *)
Fixpoint join (sep : string) (parts : list string) : string :=
  match parts with
  | [] => EmptyString
  | [p] => p
  | p :: rest => p ++ sep ++ join sep rest
  end.

(** [a.push(x)] and [a.pop()] on an array held as a list, last element at
    the end; [pop] on the empty array leaves it empty. *)
Definition push {A} (a : list A) (x : A) : list A := (a ++ [x])%list.
Definition pop {A} (a : list A) : list A := removelast a.

End JsString.

(* ------------------------------------------------------------------ *)
(** ** JavaScript values, errors and exceptions *)
(* ------------------------------------------------------------------ *)

Module Js.

(** The values that reach the tests the file performs on its arguments
    ([typeof], truthiness, [===], string concatenation).  Functions and
    objects are opaque and carry the string that [String(v)] yields. *)
Inductive value : Type :=
| VUndefined
| VNull
| VBool (b : bool)
| VNumber (n : Z)
| VString (s : string)
| VFunction (src : string)
| VObject (str : string).

Definition typeof (v : value) : string :=
  match v with
  | VUndefined => "undefined"
  | VNull => "object"
  | VBool _ => "boolean"
  | VNumber _ => "number"
  | VString _ => "string"
  | VFunction _ => "function"
  | VObject _ => "object"
  end.

Definition truthy (v : value) : bool :=
  match v with
  | VUndefined | VNull => false
  | VBool b => b
  | VNumber n => negb (n =? 0)%Z
  | VString s => negb (s =? "")
  | VFunction _ | VObject _ => true
  end.

(** [String(v)], as in ['...' + v]. *)
Definition toString (v : value) : string :=
  match v with
  | VUndefined => "undefined"
  | VNull => "null"
  | VBool true => "true"
  | VBool false => "false"
  | VNumber n => NilZero.string_of_int (Z.to_int n)
  | VString s => s
  | VFunction src => src
  | VObject str => str
  end.

(** [n + 1] on a number that holds a non-negative integer.  Numbers are
    IEEE doubles: below [2^53] the sum is exact, and [2^53 + 1] rounds back
    to [2^53]. *)
Definition max_exact : Z := 2 ^ 53.

Definition add1 (n : Z) : Z :=
  if (n <? max_exact)%Z then (n + 1)%Z else n.

(** [v === 'lit']. *)
Definition strict_eq_string (v : value) (lit : string) : bool :=
  match v with
  | VString s => s =? lit
  | _ => false
  end.

#[local] Set Warnings "-register-all".

(** An error object, with the properties [convertError] reads.  A missing
    property is [None] (for [code]: [VUndefined]). *)
Inductive error : Type :=
  MkError (isOperational : bool) (cause : option error)
          (description : option string) (message : option string)
          (code : value).

Definition isOperational (e : error) : bool :=
  let 'MkError o _ _ _ _ := e in o.
Definition cause (e : error) : option error :=
  let 'MkError _ c _ _ _ := e in c.
Definition description (e : error) : option string :=
  let 'MkError _ _ d _ _ := e in d.
Definition message (e : error) : option string :=
  let 'MkError _ _ _ m _ := e in m.
Definition code (e : error) : value :=
  let 'MkError _ _ _ _ c := e in c.

(** [new Error(msg)]. *)
Definition Error_ (msg : option string) : error :=
  MkError false None None
          (Some match msg with Some m => m | None => "" end) VUndefined.

Definition set_code (e : error) (c : value) : error :=
  let 'MkError o ca d m _ := e in MkError o ca d m c.

(** [a || b] on optional strings. *)
Definition or_string (a b : option string) : option string :=
  match a with
  | Some s => if s =? "" then b else a
  | None => b
  end.

(** A synchronous computation: it returns or it throws. *)
Inductive except (A : Type) : Type :=
| Ok (a : A)
| Throw (e : error).
Arguments Ok {A} a.
Arguments Throw {A} e.

Definition bind {A B} (c : except A) (k : A -> except B) : except B :=
  match c with
  | Ok a => k a
  | Throw e => Throw e
  end.

End Js.

Notation "x <- c ;; k" := (Js.bind c (fun x => k))
  (at level 61, c at next level, right associativity).

(* ------------------------------------------------------------------ *)
(** ** Path sandboxing: processDirPath, normalizePath, rootDir *)
(* ------------------------------------------------------------------ *)

Module Path.
Import JsString Js.

(** The ambient configuration the file reads: [__SIPHON.appID], the
    constants of [RNFSManager], [Platform.OS], and whether each event
    emitter has an [addListener]. *)
Record config : Type := {
  appID : option string;              (* [None]: undefined or null *)
  NSCachesDirectoryPath : value;
  NSDocumentDirectoryPath : value;
  NSLibraryDirectoryPath : value;
  OS : string;
  NativeAppEventEmitter_addListener : bool;
  DeviceEventEmitter_addListener : bool
}.

Definition not_a_string (path : value) : error :=
  Error_ (Some ("Path must be a string. Provided was " ++ typeof path)).

Definition processDirPath (cfg : config) (path : value) : except string :=
  match path with
  | VString p =>
      match appID cfg with
      | None => Throw (Error_ (Some "Global appID must be set."))
      | Some a =>
          if (String.length a <? 1)%nat
          then Throw (Error_ (Some "Global appID must be set."))
          else
            let ext := "siphon-data-" ++ a in
            let lastChar := slice_last p in
            let ext := if negb (lastChar =? "/") then "/" ++ ext else ext in
            Ok (p ++ ext)
      end
  | _ => Throw (not_a_string path)
  end.

(** The [for] loop of [normalizePath], by index over [parts]; [n] bounds
    the iterations left. *)
Fixpoint normalize_loop (n : nat) (parts : list string) (i : nat)
    (normParts : list string) : list string :=
  match n with
  | O => normParts
  | S n' =>
      match nth_error parts i with
      | None => normParts                       (* i < parts.length fails *)
      | Some p =>
          if p =? "." then normalize_loop n' parts (S i) normParts
          else if p =? ".." then normalize_loop n' parts (S i) (pop normParts)
          else normalize_loop n' parts (S i) (push normParts p)
      end
  end.

(** Lines 87 to 98: the segments kept from [schemeless]. *)
Definition normParts_of (schemeless : string) : list string :=
  let parts := split "/" schemeless in
  normalize_loop (List.length parts) parts 0 [].

(** Lines 76 to 85: [scheme] ([None] for null) and [schemeless].  An index
    past the end of [split] reads undefined, and line 87 then throws. *)
Definition scheme_split (path : string) : except (option string * string) :=
  if (indexOf "://" path >? -1)%Z then
    let split := split "://" path in
    match nth_error split 0, nth_error split 1 with
    | Some scheme, Some schemeless => Ok (Some scheme, schemeless)
    | _, _ =>
        Throw (Error_ (Some "Cannot read property 'split' of undefined"))
    end
  else Ok (None, path).

(** Lines 100 to 105; [if (scheme)] fails for null and for the empty
    string. *)
Definition reassemble (scheme : option string) (normParts : list string)
    : string :=
  match scheme with
  | Some s =>
      if negb (s =? "") then s ++ "://" ++ join "/" normParts
      else join "/" normParts
  | None => join "/" normParts
  end.

Definition normalizePath (path : value) : except string :=
  match path with
  | VString p =>
      ss <- scheme_split p ;;
      Ok (reassemble (fst ss) (normParts_of (snd ss)))
  | _ => Throw (not_a_string path)
  end.

(** The loop of [rootDir]: the first valid directory that is a prefix of
    [path]; [null] when the loop ends without a [break]. *)
Fixpoint rootDir_loop (path : string) (validDirs : list string)
    : option string :=
  match validDirs with
  | [] => None
  | d :: rest =>
      if substring 0 (String.length d) path =? d
      then Some (substring 0 (String.length d) path)
      else rootDir_loop path rest
  end.

Definition validDirs (cfg : config) : except (list string) :=
  c <- processDirPath cfg (NSCachesDirectoryPath cfg) ;;
  d <- processDirPath cfg (NSDocumentDirectoryPath cfg) ;;
  let dirs := [c; d] in
  if OS cfg =? "ios" then
    l <- processDirPath cfg (NSLibraryDirectoryPath cfg) ;;
    Ok (push dirs l)
  else Ok dirs.

Definition rootDir (cfg : config) (path : value) : except (option string) :=
  path' <- normalizePath path ;;
  dirs <- validDirs cfg ;;
  Ok (rootDir_loop path' dirs).

End Path.

(* ------------------------------------------------------------------ *)
(** ** The RNFS object *)
(* ------------------------------------------------------------------ *)

Module Facade.
Import JsString Js Path.

Inductive emitter : Type := NativeAppEventEmitter | DeviceEventEmitter.

(** The listener handed to [addListener]: the default of line 295, or the
    caller's. *)
Inductive callback : Type :=
| DefaultBegin
| UserCallback (f : value).

(** A call on [RNFSManager], with its arguments. *)
Inductive native_call : Type :=
| N_readDir (dirpath : value)
| N_exists (filepath : value)
| N_stat (filepath : value)
| N_readFile (filepath : value)
| N_writeFile (filepath : value) (b64 : string) (options : value)
| N_moveFile (filepath destPath : value)
| N_unlink (filepath : value)
| N_mkdir (filepath : value) (excludeFromBackup : bool)
| N_downloadFile (fromUrl toFile : value) (jobId : Z)
| N_stopDownload (jobId : value).

(** What a run leaves behind, in order.  A subscription is named by the
    position of its [AddListener] in the trace. *)
Inductive event : Type :=
| EnsureValidRoot (path : value)          (* entry of [RNFS._ensureValidRoot] *)
| Native (c : native_call)
| AddListener (e : emitter) (channel : string) (cb : callback) (h : nat)
| Remove (h : nat)                        (* [subscription.remove()] *)
| ConsoleLog (text : string) (arg : value).

(** The module state: the variable [jobId] of line 42 and the trace. *)
Record world : Type := {
  jobId : Z;
  trace : list event
}.

Definition initial : world := {| jobId := 0; trace := [] |}.

(** State passing. *)
Definition M (A : Type) : Type := world -> A * world.

Definition ret {A} (a : A) : M A := fun w => (a, w).

Definition mbind {A B} (c : M A) (k : A -> M B) : M B :=
  fun w => let (a, w') := c w in k a w'.

Notation "x <~ c ;; k" := (mbind c (fun x => k))
  (at level 61, c at next level, right associativity).

Definition emit (e : event) : M unit :=
  fun w => (tt, {| jobId := jobId w; trace := (trace w ++ [e])%list |}).

Definition history : M (list event) := fun w => (trace w, w).

(** A promise, run until it settles or is left pending for good. *)
Inductive settled (A : Type) : Type :=
| Fulfilled (a : A)
| Rejected (e : error)
| Pending.
Arguments Fulfilled {A} a.
Arguments Rejected {A} e.
Arguments Pending {A}.

Definition promise (A : Type) : Type := M (settled A).

(** [p.then(k)], [k] returning a promise. *)
Definition then_ {A B} (p : promise A) (k : A -> promise B) : promise B :=
  s <~ p ;;
  match s with
  | Fulfilled a => k a
  | Rejected e => ret (Rejected e)
  | Pending => ret Pending
  end.

(** [p.then(f)], [f] returning a value or throwing. *)
Definition then_sync {A B} (p : promise A) (f : A -> except B) : promise B :=
  then_ p (fun a => ret match f a with
                        | Ok b => Fulfilled b
                        | Throw e => Rejected e
                        end).

(** [p.catch(h)], [h] returning a value or throwing. *)
Definition catch_ {A} (p : promise A) (h : error -> except A) : promise A :=
  s <~ p ;;
  ret match s with
      | Rejected e => match h e with
                      | Ok a => Fulfilled a
                      | Throw e' => Rejected e'
                      end
      | _ => s
      end.

(** [resolve]/[reject] of [new Promise]: only the first call settles. *)
Definition settle {A} (current new : settled A) : settled A :=
  match current with
  | Pending => new
  | _ => current
  end.

(** Lines 29 to 37. *)
Definition convertError {A} (err : error) : except A :=
  let err :=
    match isOperational err, cause err with
    | true, Some c => c
    | _, _ => err
    end in
  let error := Error_ (or_string (description err) (message err)) in
  let error := set_code error (code err) in
  Throw error.

(** Lines 42 to 47. *)
Definition getJobId : M Z :=
  fun w =>
    let jobId := add1 (jobId w) in
    (jobId, {| jobId := jobId; trace := trace w |}).

(** What [RNFSManager] hands back. *)
Record file_entry : Type := {
  fe_name : string; fe_path : string; fe_size : Z; fe_type : value
}.

Record stat_entry : Type := {
  se_ctime : Z; se_mtime : Z; se_size : Z; se_mode : Z; se_type : value
}.

(** What the facade hands on; the closures [isFile] and [isDirectory]
    are kept as the booleans they compute. *)
Record dir_item : Type := {
  name : string; path : string; size : Z; isFile : bool; isDirectory : bool
}.

Record stat_result : Type := {
  ctime : Z; mtime : Z; st_size : Z; mode : Z;
  st_isFile : bool; st_isDirectory : bool
}.

(** How a call on [RNFSManager] ends, given everything that happened so
    far; one field per promisified function. *)
Record native : Type := {
  NSFileTypeRegular : value;
  NSFileTypeDirectory : value;
  native_readDir : list event -> value -> settled (list file_entry);
  native_exists : list event -> value -> settled bool;
  native_stat : list event -> value -> settled stat_entry;
  native_readFile : list event -> value -> settled string;
  native_writeFile : list event -> value -> string -> value -> settled unit;
  native_moveFile : list event -> value -> value -> settled unit;
  native_unlink : list event -> value -> settled unit;
  native_mkdir : list event -> value -> bool -> settled unit;
  native_downloadFile : list event -> value -> value -> Z -> settled value
}.

(** The libraries [base-64] and [utf8]; each function may throw. *)
Record codecs : Type := {
  base64_encode : string -> except string;
  base64_decode : string -> except string;
  utf8_encode : string -> except string;
  utf8_decode : string -> except string
}.

(** [a === b] on the type tags of the native module. *)
Definition strict_eq (a b : value) : bool :=
  match a, b with
  | VUndefined, VUndefined | VNull, VNull => true
  | VBool x, VBool y => Bool.eqb x y
  | VNumber x, VNumber y => (x =? y)%Z
  | VString x, VString y => x =? y
  | VFunction x, VFunction y => x =? y
  | VObject x, VObject y => x =? y
  | _, _ => false
  end.

Definition invalid_root_message : string :=
  "Warning: Invalid directory for Siphon app. " ++
  "Please use one of DocumentDirectoryPath, " ++
  "CachesDirectoryPath or LibraryDirectoryPath (iOS only).".

Definition quote : string := String (Ascii.ascii_of_nat 34) EmptyString.

Definition invalid_encoding (encoding : value) : error :=
  Error_ (Some ("Invalid encoding type " ++ quote ++ toString encoding
                ++ quote)).

(** The public file operations, as calls with their arguments, and the
    values their promises are fulfilled with. *)
Inductive call : Type :=
| Call_readDir (dirpath : value)
| Call_readdir (dirpath : value)
| Call_stat (filepath : value)
| Call_exists (filepath : value)
| Call_readFile (filepath encoding : value)
| Call_writeFile (filepath : value) (contents : string)
    (encoding options : value)
| Call_moveFile (filepath destPath : value)
| Call_unlink (filepath : value)
| Call_mkdir (filepath excludeFromBackup : value)
| Call_downloadFile (fromUrl toFile begin progress : value).

Inductive result : Type :=
| R_items (items : list dir_item)
| R_names (names : list string)
| R_stat (s : stat_result)
| R_bool (b : bool)
| R_string (s : string)
| R_unit
| R_value (v : value).

(** What a call on the facade comes to: an exception thrown before any
    promise exists, or a promise. *)
Inductive outcome (A : Type) : Type :=
| Threw (e : error)
| Returned (p : settled A).
Arguments Threw {A} e.
Arguments Returned {A} p.

Section RNFS.

Variable cfg : config.
Variable rn : native.
Variable lib : codecs.

(** A promisified function is called: the call is recorded and the
    promise it returns settles as the native module decides. *)
Definition call_native {A} (c : native_call)
    (result : list event -> settled A) : promise A :=
  h <~ history ;;
  _ <~ emit (Native c) ;;
  ret (result h).

Definition _readDir (p : value) := call_native (N_readDir p) (fun h => native_readDir rn h p).
Definition _exists (p : value) := call_native (N_exists p) (fun h => native_exists rn h p).
Definition _stat (p : value) := call_native (N_stat p) (fun h => native_stat rn h p).
Definition _readFile (p : value) := call_native (N_readFile p) (fun h => native_readFile rn h p).
Definition _writeFile (p : value) (b64 : string) (o : value) :=
  call_native (N_writeFile p b64 o) (fun h => native_writeFile rn h p b64 o).
Definition _moveFile (p d : value) := call_native (N_moveFile p d) (fun h => native_moveFile rn h p d).
Definition _unlink (p : value) := call_native (N_unlink p) (fun h => native_unlink rn h p).
Definition _mkdir (p : value) (x : bool) := call_native (N_mkdir p x) (fun h => native_mkdir rn h p x).
Definition _downloadFile (u f : value) (j : Z) :=
  call_native (N_downloadFile u f j) (fun h => native_downloadFile rn h u f j).

(** [root] as a value, and [!root]. *)
Definition root_value (root : option string) : value :=
  match root with
  | Some r => VString r
  | None => VNull
  end.

(** Lines 138 to 159.  The executor runs to its end: [reject] on line 145
    settles the promise and the statements after it still run.  An
    exception in the executor rejects the promise unless it is settled. *)
Definition _ensureValidRoot (path : value) : promise unit :=
  _ <~ emit (EnsureValidRoot path) ;;
  match rootDir cfg path with
  | Throw e => ret (Rejected e)
  | Ok root =>
      let state : settled unit := Pending in
      let state :=
        if negb (truthy (root_value root))
        then settle state (Rejected (Error_ (Some invalid_root_message)))
        else state in
      match processDirPath cfg (NSCachesDirectoryPath cfg) with
      | Throw e => ret (settle state (Rejected e))
      | Ok caches =>
          (* [root == caches]: null never equals a string *)
          let excludeFromBackup := strict_eq_string (root_value root) caches in
          made <~ _mkdir (root_value root) excludeFromBackup ;;
          ret (settle state made)
      end
  end.

(** Lines 161 to 177. *)
Definition readDir (dirpath : value) : promise (list dir_item) :=
  catch_
    (then_ (_ensureValidRoot dirpath) (fun _ =>
       catch_
         (then_sync (_readDir dirpath) (fun files =>
            Ok (map (fun file =>
                  {| name := fe_name file;
                     path := fe_path file;
                     size := fe_size file;
                     isFile := strict_eq (fe_type file) (NSFileTypeRegular rn);
                     isDirectory :=
                       strict_eq (fe_type file) (NSFileTypeDirectory rn) |})
                  files)))
         convertError))
    convertError.

(** Lines 180 to 188. *)
Definition readdir (dirpath : value) : promise (list string) :=
  then_ (_ensureValidRoot dirpath) (fun _ =>
    then_sync (readDir dirpath) (fun files => Ok (map name files))).

(** Lines 190 to 206. *)
Definition stat (filepath : value) : promise stat_result :=
  then_ (_ensureValidRoot filepath) (fun _ =>
    catch_
      (then_sync (_stat filepath) (fun result =>
         Ok {| ctime := (se_ctime result * 1000)%Z;
               mtime := (se_mtime result * 1000)%Z;
               st_size := se_size result;
               mode := se_mode result;
               st_isFile := strict_eq (se_type result) (NSFileTypeRegular rn);
               st_isDirectory :=
                 strict_eq (se_type result) (NSFileTypeDirectory rn) |}))
      convertError).

(** Lines 208 to 214. *)
Definition exists_ (filepath : value) : promise bool :=
  then_ (_ensureValidRoot filepath) (fun _ =>
    catch_ (_exists filepath) convertError).

(** Line 217 and line 243. *)
Definition default_encoding (encoding : value) : value :=
  if negb (truthy encoding) then VString "utf8" else encoding.

(** Lines 216 to 238. *)
Definition readFile (filepath encoding : value) : promise string :=
  let encoding := default_encoding encoding in
  then_ (_ensureValidRoot filepath) (fun _ =>
    catch_
      (then_sync (_readFile filepath) (fun b64 =>
         if strict_eq_string encoding "utf8" then
           raw <- base64_decode lib b64 ;; utf8_decode lib raw
         else if strict_eq_string encoding "ascii" then
           base64_decode lib b64
         else if strict_eq_string encoding "base64" then
           Ok b64
         else Throw (invalid_encoding encoding)))
      convertError).

Definition returned {A} (p : promise A) : M (outcome A) :=
  s <~ p ;; ret (Returned s).

(** Lines 240 to 260. *)
Definition writeFile (filepath : value) (contents : string)
    (encoding options : value) : M (outcome unit) :=
  let encoding := default_encoding encoding in
  let b64 :=
    if strict_eq_string encoding "utf8" then
      raw <- utf8_encode lib contents ;; base64_encode lib raw
    else if strict_eq_string encoding "ascii" then
      base64_encode lib contents
    else if strict_eq_string encoding "base64" then
      Ok contents
    else Throw (invalid_encoding encoding) in
  match b64 with
  | Throw e => ret (Threw e)
  | Ok b64 =>
      returned
        (then_ (_ensureValidRoot filepath) (fun _ =>
           catch_ (_writeFile filepath b64 options) convertError))
  end.

(** Lines 262 to 268. *)
Definition moveFile (filepath destPath : value) : promise unit :=
  then_ (_ensureValidRoot filepath) (fun _ =>
    catch_ (_moveFile filepath destPath) convertError).

(** Lines 270 to 272. *)
Definition pathForBundle (bundleName : value) : M unit :=
  emit (ConsoleLog "Warning: pathForBundle is disabled by Siphon." VUndefined).

(** Lines 274 to 280. *)
Definition unlink (filepath : value) : promise unit :=
  then_ (_ensureValidRoot filepath) (fun _ =>
    catch_ (_unlink filepath) convertError).

(** Lines 282 to 289. *)
Definition mkdir (filepath excludeFromBackup : value) : promise unit :=
  then_ (_ensureValidRoot filepath) (fun _ =>
    let excludeFromBackup := truthy excludeFromBackup in
    catch_ (_mkdir filepath excludeFromBackup) convertError).

(** [emitter.addListener(channel, cb)]: the subscription it returns. *)
Definition addListener (e : emitter) (channel : string) (cb : callback)
    : M nat :=
  h <~ history ;;
  let subscription := List.length h in
  _ <~ emit (AddListener e channel cb subscription) ;;
  ret subscription.

(** [if (emitter.addListener) variable = emitter.addListener(...)]. *)
Definition subscribe_if (available : bool) (e : emitter) (channel : string)
    (cb : callback) (variable : option nat) : M (option nat) :=
  if available then
    s <~ addListener e channel cb ;; ret (Some s)
  else ret variable.

(** [if (subscription) subscription.remove()]. *)
Definition remove_if (variable : option nat) : M unit :=
  match variable with
  | Some s => emit (Remove s)
  | None => ret tt
  end.

(** The default listener of lines 295 to 297, when an event reaches it. *)
Definition invoke_default_begin (info : value) : M unit :=
  emit (ConsoleLog "Download begun:" info).

(** Lines 291 to 324. *)
Definition downloadFile (fromUrl toFile begin progress : value)
    : promise value :=
  jobId <~ getJobId ;;
  let subscriptionIos : option nat := None in
  let subscriptionAndroid : option nat := None in
  let begin := if negb (truthy begin) then DefaultBegin
               else UserCallback begin in
  let begin_channel := "DownloadBegin-" ++ toString (VNumber jobId) in
  let progress_channel := "DownloadProgress-" ++ toString (VNumber jobId) in
  let if_begin :=
    match begin with
    | DefaultBegin => true
    | UserCallback f => truthy f
    end in
  subscriptionIos <~
    (if if_begin
     then subscribe_if (NativeAppEventEmitter_addListener cfg)
            NativeAppEventEmitter begin_channel begin subscriptionIos
     else ret subscriptionIos) ;;
  subscriptionAndroid <~
    (if if_begin
     then subscribe_if (DeviceEventEmitter_addListener cfg)
            DeviceEventEmitter begin_channel begin subscriptionAndroid
     else ret subscriptionAndroid) ;;
  subscriptionIos <~
    (if truthy progress
     then subscribe_if (NativeAppEventEmitter_addListener cfg)
            NativeAppEventEmitter progress_channel (UserCallback progress)
            subscriptionIos
     else ret subscriptionIos) ;;
  subscriptionAndroid <~
    (if truthy progress
     then subscribe_if (DeviceEventEmitter_addListener cfg)
            DeviceEventEmitter progress_channel (UserCallback progress)
            subscriptionAndroid
     else ret subscriptionAndroid) ;;
  then_ (_ensureValidRoot toFile) (fun _ =>
    catch_
      (then_ (_downloadFile fromUrl toFile jobId) (fun res =>
         _ <~ remove_if subscriptionIos ;;
         _ <~ remove_if subscriptionAndroid ;;
         ret (Fulfilled res)))
      convertError).

(** Lines 326 to 328. *)
Definition stopDownload (jobId : value) : M unit :=
  emit (Native (N_stopDownload jobId)).

(** One call on a public file operation, and what it comes to. *)
Definition fmap {A B} (f : A -> B) (p : promise A) : promise B :=
  then_sync p (fun a => Ok (f a)).

Definition run (c : call) : M (outcome result) :=
  match c with
  | Call_readDir p => returned (fmap R_items (readDir p))
  | Call_readdir p => returned (fmap R_names (readdir p))
  | Call_stat p => returned (fmap R_stat (stat p))
  | Call_exists p => returned (fmap R_bool (exists_ p))
  | Call_readFile p enc => returned (fmap R_string (readFile p enc))
  | Call_writeFile p contents enc options =>
      o <~ writeFile p contents enc options ;;
      ret match o with
          | Threw e => Threw e
          | Returned (Fulfilled _) => Returned (Fulfilled R_unit)
          | Returned (Rejected e) => Returned (Rejected e)
          | Returned Pending => Returned Pending
          end
  | Call_moveFile p d => returned (fmap (fun _ => R_unit) (moveFile p d))
  | Call_unlink p => returned (fmap (fun _ => R_unit) (unlink p))
  | Call_mkdir p x => returned (fmap (fun _ => R_unit) (mkdir p x))
  | Call_downloadFile u f b pr =>
      returned (fmap R_value (downloadFile u f b pr))
  end.

End RNFS.

End Facade.

(* ------------------------------------------------------------------ *)
(** ** Notions used to state the properties *)
(* ------------------------------------------------------------------ *)

(** The left fold as the specification words it (section 4.1), to compare
    the loop of [normalizePath] with: ["."] segments are dropped, [".."]
    segments pop the most recently kept segment (nothing to pop on an empty
    accumulator), every other segment is kept.  The accumulator holds the
    kept segments, the most recently kept one first. *)
Module Spec.
Import JsString Js Path.

Definition fold_step (kept : list string) (segment : string) : list string :=
  if segment =? "." then kept
  else if segment =? ".." then tl kept
  else segment :: kept.

Definition fold_segments (segments : list string) : list string :=
  rev (fold_left fold_step segments []).

End Spec.

(** Segments, and what the loop of [normalizePath] does to them. *)
Module Segments.
Import JsString Js Path.

(** The body of the loop of [normalizePath], on the array. *)
Definition loop_step (normParts : list string) (p : string) : list string :=
  if p =? "." then normParts
  else if p =? ".." then pop normParts
  else push normParts p.

(** Splitting on ["/"], by recursion on the string. *)
Fixpoint segments (s : string) : list string :=
  match s with
  | EmptyString => [EmptyString]
  | String c s' =>
      if Ascii.eqb c "/" then EmptyString :: segments s'
      else match segments s' with
           | x :: r => String c x :: r
           | [] => [String c EmptyString]
           end
  end.

(** A string without ["/"] is its own single segment. *)
Definition slash_free (x : string) : Prop := segments x = [x].

Definition is_dot (p : string) : bool := (p =? ".") || (p =? "..").

(** A string none of whose segments is ["."] or [".."]. *)
Definition dot_free (s : string) : Prop :=
  Forall (fun p => is_dot p = false) (segments s).

(** The path body [normalizePath] computes from [schemeless]. *)
Definition normalizeBody (schemeless : string) : string :=
  join "/" (normParts_of schemeless).

(** The length of [join "/" l], plus one. *)
Fixpoint weight (l : list string) : nat :=
  match l with
  | [] => 0
  | x :: r => S (String.length x) + weight r
  end.

(** Occurrences of [sep] as [split] sees them: left to right, without
    overlap. *)
Definition occurrences (sep s : string) : nat :=
  List.length (split sep s) - 1.

End Segments.

(** What is observed of a run of the facade. *)
Module Observe.
Import JsString Js Path Facade.

(** [n] successive calls of [getJobId], in issuance order. *)
Fixpoint issue (n : nat) : M (list Z) :=
  match n with
  | O => ret []
  | S n' =>
      j <~ getJobId ;;
      js <~ issue n' ;;
      ret (j :: js)
  end.

(** The world after more events. *)
Definition extend (w : world) (delta : list event) : world :=
  {| jobId := jobId w; trace := (trace w ++ delta)%list |}.

(** A computation that leaves the variable [jobId] as it found it. *)
Definition keeps_counter {A} (m : M A) : Prop :=
  forall w, jobId (snd (m w)) = jobId w.

(** The target path of a call, in the specification's sense: the first
    path, the source of a move, the destination of a download. *)
Definition target (c : call) : value :=
  match c with
  | Call_readDir p | Call_readdir p | Call_stat p | Call_exists p
  | Call_readFile p _ | Call_writeFile p _ _ _ | Call_moveFile p _
  | Call_unlink p | Call_mkdir p _ => p
  | Call_downloadFile _ toFile _ _ => toFile
  end.

(** The paths [_ensureValidRoot] was entered with. *)
Fixpoint guards (t : list event) : list value :=
  match t with
  | [] => []
  | EnsureValidRoot p :: r => p :: guards r
  | _ :: r => guards r
  end.

(** The calls on the native module. *)
Fixpoint natives (t : list event) : list native_call :=
  match t with
  | [] => []
  | Native c :: r => c :: natives r
  | _ :: r => natives r
  end.

(** No call on the native module comes before the first entry of
    [_ensureValidRoot]. *)
Fixpoint guard_first (t : list event) : bool :=
  match t with
  | [] => true
  | EnsureValidRoot _ :: _ => true
  | Native _ :: _ => false
  | _ :: r => guard_first r
  end.

(** How often subscription [h] was removed. *)
Fixpoint releases (h : nat) (t : list event) : nat :=
  match t with
  | [] => 0
  | Remove h' :: r => (if Nat.eqb h h' then 1 else 0) + releases h r
  | _ :: r => releases h r
  end.

(** The subscriptions taken on a channel. *)
Fixpoint subscriptions (channel : string) (t : list event) : list nat :=
  match t with
  | [] => []
  | AddListener _ ch _ h :: r =>
      if ch =? channel then h :: subscriptions channel r
      else subscriptions channel r
  | _ :: r => subscriptions channel r
  end.

Definition is_listener (e : event) : bool :=
  match e with
  | AddListener _ _ _ _ => true
  | _ => false
  end.

Definition begin_channel (jobId : Z) : string :=
  "DownloadBegin-" ++ toString (VNumber jobId).

Definition progress_channel (jobId : Z) : string :=
  "DownloadProgress-" ++ toString (VNumber jobId).

Definition count (b : bool) : nat := if b then 1 else 0.

(** The listeners registered for one event: one per emitter that has an
    [addListener], the first numbered [n]. *)
Definition listeners_for (cfg : config) (channel : string) (cb : callback)
    (n : nat) : list event :=
  ((if NativeAppEventEmitter_addListener cfg
    then [AddListener NativeAppEventEmitter channel cb n]
    else []) ++
   (if DeviceEventEmitter_addListener cfg
    then [AddListener DeviceEventEmitter channel cb
            (n + count (NativeAppEventEmitter_addListener cfg))]
    else []))%list.

Definition emitters (cfg : config) : nat :=
  count (NativeAppEventEmitter_addListener cfg)
  + count (DeviceEventEmitter_addListener cfg).

(** The listener [downloadFile] registers for the begin event. *)
Definition begin_callback (begin : value) : callback :=
  if negb (truthy begin) then DefaultBegin else UserCallback begin.

Definition begin_listeners (cfg : config) (jobId : Z) (begin : value)
    (n : nat) : list event :=
  listeners_for cfg (begin_channel jobId) (begin_callback begin) n.

Definition progress_listeners (cfg : config) (jobId : Z) (progress : value)
    (n : nat) : list event :=
  if truthy progress
  then listeners_for cfg (progress_channel jobId) (UserCallback progress) n
  else [].

(** The variables [subscriptionIos] and [subscriptionAndroid] when the
    promise is built, the first listener being numbered [n]: each holds
    the last subscription taken on its emitter. *)
Definition held_ios (cfg : config) (progress : value) (n : nat)
    : option nat :=
  if NativeAppEventEmitter_addListener cfg
  then Some (if truthy progress then n + emitters cfg else n)
  else None.

Definition held_android (cfg : config) (progress : value) (n : nat)
    : option nat :=
  if DeviceEventEmitter_addListener cfg
  then Some ((if truthy progress then n + emitters cfg else n)
             + count (NativeAppEventEmitter_addListener cfg))
  else None.

(** The events of [if (subscription) subscription.remove()], for both
    variables. *)
Definition removal (variable : option nat) : list event :=
  match variable with
  | Some s => [Remove s]
  | None => []
  end.

Definition removals (cfg : config) (progress : value) (n : nat)
    : list event :=
  (removal (held_ios cfg progress n)
   ++ removal (held_android cfg progress n))%list.

(** The error [convertError] throws for [e]. *)
Definition converted (e : error) : error :=
  match @convertError unit e with
  | Throw e' => e'
  | Ok _ => e
  end.

Definition fulfilled {A} (s : settled A) : bool :=
  match s with
  | Fulfilled _ => true
  | _ => false
  end.

(** How often a call enters [_ensureValidRoot]. *)
Definition guard_entries (cfg : config) (rn : native) (lib : codecs)
    (c : call) (w : world) : nat :=
  match fst (run cfg rn lib c w) with
  | Threw _ => 0
  | Returned _ =>
      match c with
      | Call_readdir p =>
          if fulfilled (fst (_ensureValidRoot cfg rn p w)) then 2 else 1
      | _ => 1
      end
  end.

Definition supported_encoding (encoding : value) : bool :=
  strict_eq_string encoding "utf8" || strict_eq_string encoding "ascii"
  || strict_eq_string encoding "base64".

End Observe.

(** A configuration and a native module to run the facade on: Android
    paths, both emitters present, every native call fulfilled. *)
Module Sample.
Import Js Path Facade.

Definition cfg : config := {|
  appID := Some "app";
  NSCachesDirectoryPath := VString "/data/cache";
  NSDocumentDirectoryPath := VString "/data/files";
  NSLibraryDirectoryPath := VUndefined;
  OS := "android";
  NativeAppEventEmitter_addListener := true;
  DeviceEventEmitter_addListener := false
|}.

Definition rn : native := {|
  NSFileTypeRegular := VNumber 0;
  NSFileTypeDirectory := VNumber 1;
  native_readDir := fun _ _ =>
    Fulfilled [{| fe_name := "a.txt";
                  fe_path := "/data/cache/siphon-data-app/a.txt";
                  fe_size := 3; fe_type := VNumber 0 |}];
  native_exists := fun _ _ => Fulfilled true;
  native_stat := fun _ _ =>
    Fulfilled {| se_ctime := 1; se_mtime := 2; se_size := 3; se_mode := 420;
                 se_type := VNumber 0 |};
  native_readFile := fun _ _ => Fulfilled "aGk=";
  native_writeFile := fun _ _ _ _ => Fulfilled tt;
  native_moveFile := fun _ _ _ => Fulfilled tt;
  native_unlink := fun _ _ => Fulfilled tt;
  native_mkdir := fun _ _ _ => Fulfilled tt;
  native_downloadFile := fun _ _ _ _ => Fulfilled (VObject "[object Object]")
|}.

(** The same module with a download that fails. *)
Definition rn_failing : native := {|
  NSFileTypeRegular := NSFileTypeRegular rn;
  NSFileTypeDirectory := NSFileTypeDirectory rn;
  native_readDir := native_readDir rn;
  native_exists := native_exists rn;
  native_stat := native_stat rn;
  native_readFile := native_readFile rn;
  native_writeFile := native_writeFile rn;
  native_moveFile := native_moveFile rn;
  native_unlink := native_unlink rn;
  native_mkdir := native_mkdir rn;
  native_downloadFile := fun _ _ _ _ =>
    Rejected (MkError false None None (Some "Network error") (VNumber 500))
|}.

(** Codecs left abstract: the identity. *)
Definition lib : codecs := {|
  base64_encode := Ok;
  base64_decode := Ok;
  utf8_encode := Ok;
  utf8_decode := Ok
|}.

Definition cache_file : value := VString "/data/cache/siphon-data-app/a.txt".
Definition cache_dir : value := VString "/data/cache/siphon-data-app/docs".
Definition download_target : value :=
  VString "/data/files/siphon-data-app/a.bin".
Definition url : value := VString "http://host/a.bin".

End Sample.

(* ------------------------------------------------------------------ *)
(** ** The exported constants *)
(* ------------------------------------------------------------------ *)

Module Exports.
Import JsString Js Path.

(** Lines 330 to 336: [CachesDirectoryPath] and [DocumentDirectoryPath],
    and [LibraryDirectoryPath] on iOS ([None]: the property is not set).
    They are computed when the module is loaded; an exception there is an
    exception of the load. *)
Record constants : Type := {
  CachesDirectoryPath : string;
  DocumentDirectoryPath : string;
  LibraryDirectoryPath : option string
}.

Definition exports (cfg : config) : except constants :=
  c <- processDirPath cfg (NSCachesDirectoryPath cfg) ;;
  d <- processDirPath cfg (NSDocumentDirectoryPath cfg) ;;
  if OS cfg =? "ios" then
    l <- processDirPath cfg (NSLibraryDirectoryPath cfg) ;;
    Ok {| CachesDirectoryPath := c; DocumentDirectoryPath := d;
          LibraryDirectoryPath := Some l |}
  else
    Ok {| CachesDirectoryPath := c; DocumentDirectoryPath := d;
          LibraryDirectoryPath := None |}.

(** The constants as a list, in the order of their definition. *)
Definition exported (k : constants) : list string :=
  CachesDirectoryPath k :: DocumentDirectoryPath k
  :: match LibraryDirectoryPath k with
     | Some l => [l]
     | None => []
     end.

End Exports.

(** What an operation hands to the native module once the guard has let
    it through. *)
Module Delegate.
Import JsString Js Path Facade Observe.

(** How a promise settled, its value left out. *)
Definition erase {A} (s : settled A) : settled unit :=
  match s with
  | Fulfilled _ => Fulfilled tt
  | Rejected e => Rejected e
  | Pending => Pending
  end.

(** How the native module answers a call, given what happened so far.
    [stopDownload] is not promisified: nothing is answered. *)
Definition native_answer (rn : native) (h : list event) (c : native_call)
    : settled unit :=
  match c with
  | N_readDir p => erase (native_readDir rn h p)
  | N_exists p => erase (native_exists rn h p)
  | N_stat p => erase (native_stat rn h p)
  | N_readFile p => erase (native_readFile rn h p)
  | N_writeFile p b64 o => erase (native_writeFile rn h p b64 o)
  | N_moveFile p d => erase (native_moveFile rn h p d)
  | N_unlink p => erase (native_unlink rn h p)
  | N_mkdir p x => erase (native_mkdir rn h p x)
  | N_downloadFile u f j => erase (native_downloadFile rn h u f j)
  | N_stopDownload _ => Pending
  end.

(** The payloads handed to the native [writeFile] for [filepath]. *)
Fixpoint written (filepath : value) (t : list event) : list string :=
  match t with
  | [] => []
  | Native (N_writeFile p b64 _) :: r =>
      if strict_eq p filepath then b64 :: written filepath r
      else written filepath r
  | _ :: r => written filepath r
  end.

(** The number of [remove()] calls. *)
Fixpoint removed (t : list event) : nat :=
  match t with
  | [] => 0
  | Remove _ :: r => S (removed r)
  | _ :: r => removed r
  end.

(** The error an operation rejects with when its guard rejects with [e]:
    only [readDir] has a [catch] around the guard. *)
Definition guard_error (c : call) (e : error) : error :=
  match c with
  | Call_readDir _ => converted e
  | _ => e
  end.

(** The property [convertError] reads the message and the code from. *)
Definition unwrapped (e : error) : error :=
  match isOperational e, cause e with
  | true, Some c => c
  | _, _ => e
  end.

(** Lines 243 to 253: what [writeFile] makes of [contents]. *)
Definition encoded (lib : codecs) (contents : string) (encoding : value)
    : except string :=
  let encoding := default_encoding encoding in
  if strict_eq_string encoding "utf8" then
    raw <- utf8_encode lib contents ;; base64_encode lib raw
  else if strict_eq_string encoding "ascii" then
    base64_encode lib contents
  else if strict_eq_string encoding "base64" then
    Ok contents
  else Throw (invalid_encoding encoding).

(** Line 217 and lines 224 to 232: what [readFile] makes of [b64]. *)
Definition decoded (lib : codecs) (b64 : string) (encoding : value)
    : except string :=
  let encoding := default_encoding encoding in
  if strict_eq_string encoding "utf8" then
    raw <- base64_decode lib b64 ;; utf8_decode lib raw
  else if strict_eq_string encoding "ascii" then
    base64_decode lib b64
  else if strict_eq_string encoding "base64" then
    Ok b64
  else Throw (invalid_encoding encoding).

(** The world in which an operation enters its guard: [downloadFile] has
    taken its identifier and registered its listeners by then. *)
Definition entry (cfg : config) (c : call) (w : world) : world :=
  match c with
  | Call_downloadFile _ _ begin progress =>
      let j := add1 (jobId w) in
      let n := List.length (trace w) in
      {| jobId := j;
         trace := (trace w ++ begin_listeners cfg j begin n
                   ++ progress_listeners cfg j progress (n + emitters cfg))%list |}
  | _ => w
  end.

(** The call an operation makes on the native module after its guard;
    none for a [writeFile] that throws. *)
Definition delegate (lib : codecs) (c : call) (w : world)
    : option native_call :=
  match c with
  | Call_readDir p | Call_readdir p => Some (N_readDir p)
  | Call_stat p => Some (N_stat p)
  | Call_exists p => Some (N_exists p)
  | Call_readFile p _ => Some (N_readFile p)
  | Call_writeFile p contents encoding options =>
      match encoded lib contents encoding with
      | Ok b64 => Some (N_writeFile p b64 options)
      | Throw _ => None
      end
  | Call_moveFile p d => Some (N_moveFile p d)
  | Call_unlink p => Some (N_unlink p)
  | Call_mkdir p x => Some (N_mkdir p (truthy x))
  | Call_downloadFile u f _ _ => Some (N_downloadFile u f (add1 (jobId w)))
  end.

(** The events every operation may leave behind: entries of the guard and
    calls on the native module other than a download.  Subscriptions,
    removals, downloads and console output are not among them. *)
Definition plain (e : event) : bool :=
  match e with
  | EnsureValidRoot _ => true
  | Native (N_downloadFile _ _ _) => false
  | Native (N_stopDownload _) => false
  | Native _ => true
  | _ => false
  end.

(** A computation that keeps the counter and adds plain events only. *)
Definition quiet {A} (m : M A) : Prop :=
  forall w, exists delta,
    snd (m w) = extend w delta /\ forallb plain delta = true.

(** The downloads started. *)
Fixpoint downloads (t : list event) : list (value * value * Z) :=
  match t with
  | [] => []
  | Native (N_downloadFile u f j) :: r => (u, f, j) :: downloads r
  | _ :: r => downloads r
  end.

End Delegate.

(** Further configurations and native modules to run the facade on. *)
Module Scenario.
Import Js Path Facade.

(** No application identifier. *)
Definition unset : config := {|
  appID := None;
  NSCachesDirectoryPath := VString "/data/cache";
  NSDocumentDirectoryPath := VString "/data/files";
  NSLibraryDirectoryPath := VUndefined;
  OS := "android";
  NativeAppEventEmitter_addListener := true;
  DeviceEventEmitter_addListener := false
|}.

(** An iOS configuration. *)
Definition ios : config := {|
  appID := Some "app";
  NSCachesDirectoryPath := VString "/var/Caches";
  NSDocumentDirectoryPath := VString "/var/Documents";
  NSLibraryDirectoryPath := VString "/var/Library/";
  OS := "ios";
  NativeAppEventEmitter_addListener := true;
  DeviceEventEmitter_addListener := false
|}.

Definition denied : error :=
  MkError true
    (Some (MkError false None (Some "EACCES") (Some "denied") (VNumber 13)))
    None (Some "wrapped") VUndefined.

(** A native module that cannot create directories. *)
Definition rn_no_mkdir : native := {|
  NSFileTypeRegular := NSFileTypeRegular Sample.rn;
  NSFileTypeDirectory := NSFileTypeDirectory Sample.rn;
  native_readDir := native_readDir Sample.rn;
  native_exists := native_exists Sample.rn;
  native_stat := native_stat Sample.rn;
  native_readFile := native_readFile Sample.rn;
  native_writeFile := native_writeFile Sample.rn;
  native_moveFile := native_moveFile Sample.rn;
  native_unlink := native_unlink Sample.rn;
  native_mkdir := fun _ _ _ => Rejected denied;
  native_downloadFile := native_downloadFile Sample.rn
|}.

(** A native module that creates directories and fails to [stat]. *)
Definition rn_no_stat : native := {|
  NSFileTypeRegular := NSFileTypeRegular Sample.rn;
  NSFileTypeDirectory := NSFileTypeDirectory Sample.rn;
  native_readDir := native_readDir Sample.rn;
  native_exists := native_exists Sample.rn;
  native_stat := fun _ _ => Rejected denied;
  native_readFile := native_readFile Sample.rn;
  native_writeFile := native_writeFile Sample.rn;
  native_moveFile := native_moveFile Sample.rn;
  native_unlink := native_unlink Sample.rn;
  native_mkdir := native_mkdir Sample.rn;
  native_downloadFile := native_downloadFile Sample.rn
|}.

End Scenario.

(* ------------------------------------------------------------------ *)
(** ** Facts on the string primitives *)
(* ------------------------------------------------------------------ *)

Module JsStringFacts.
Import JsString.

Lemma append_empty_r (s : string) : s ++ "" = s.
Proof. induction s as [|c s IH]; simpl; [reflexivity | now rewrite IH]. Qed.

Lemma append_assoc (a b c : string) : (a ++ b) ++ c = a ++ (b ++ c).
Proof. induction a as [|x a IH]; simpl; [reflexivity | now rewrite IH]. Qed.

Lemma length_append (a b : string) :
  String.length (a ++ b) = String.length a + String.length b.
Proof. induction a as [|x a IH]; simpl; [reflexivity | now rewrite IH]. Qed.

Lemma startsWith_append (p x : string) : startsWith p (p ++ x) = true.
Proof.
  induction p as [|c p IH]; simpl; [reflexivity|].
  now rewrite Ascii.eqb_refl, IH.
Qed.

Lemma startsWith_split (p s : string) :
  startsWith p s = true -> s = p ++ drop (String.length p) s.
Proof.
  revert s; induction p as [|c p IH]; intros s H; simpl in *; [reflexivity|].
  destruct s as [|d s]; [discriminate|].
  apply andb_true_iff in H as [Hc Hp].
  apply Ascii.eqb_eq in Hc; subst d.
  now rewrite <- (IH s Hp).
Qed.

Lemma drop_append (p x : string) : drop (String.length p) (p ++ x) = x.
Proof. induction p as [|c p IH]; simpl; [now destruct x | exact IH]. Qed.

Lemma take_append (p x : string) : take (String.length p) (p ++ x) = p.
Proof. induction p as [|c p IH]; simpl; [now destruct x | now rewrite IH]. Qed.

(** The test [startsWith p] reads only the first [length p] characters. *)
Lemma startsWith_prefix_only (p u v w : string) :
  String.length p <= String.length u ->
  startsWith p (u ++ v) = startsWith p (u ++ w).
Proof.
  revert u; induction p as [|c p IH]; intros u Hl; simpl; [reflexivity|].
  destruct u as [|d u]; simpl in *; [lia|].
  rewrite (IH u) by lia. reflexivity.
Qed.

(** [s.substring(0, d.length) == d] is the prefix test. *)
Lemma take_prefix_test (d s : string) :
  (take (String.length d) s =? d) = startsWith d s.
Proof.
  revert s; induction d as [|c d IH]; intros s; simpl.
  - now destruct s.
  - destruct s as [|x s]; simpl; [reflexivity|].
    rewrite IH, (Ascii.eqb_sym x c). reflexivity.
Qed.

Lemma substring_prefix_test (d s : string) :
  (substring 0 (String.length d) s =? d) = startsWith d s.
Proof.
  unfold substring. rewrite Nat.sub_0_r. apply take_prefix_test.
Qed.

Lemma substring_prefix_value (d s : string) :
  startsWith d s = true -> substring 0 (String.length d) s = d.
Proof.
  intros H. rewrite <- substring_prefix_test in H.
  now apply String.eqb_eq in H.
Qed.

(** *** [cut]: the first occurrence *)

Lemma cut_Some (sep s a b : string) :
  cut sep s = Some (a, b) -> s = a ++ sep ++ b.
Proof.
  revert a b; induction s as [|c s IH]; intros a b H; simpl in H.
  - destruct (startsWith sep "") eqn:E; [|discriminate].
    inversion H; subst. simpl. now apply startsWith_split.
  - destruct (startsWith sep (String c s)) eqn:E.
    + inversion H; subst. simpl. now apply startsWith_split.
    + destruct (cut sep s) as [[a' b']|] eqn:Ec; [|discriminate].
      inversion H; subst. simpl. now rewrite <- (IH a' b eq_refl).
Qed.

Lemma cut_shorter (sep s a b : string) :
  sep <> "" -> cut sep s = Some (a, b) -> String.length b < String.length s.
Proof.
  intros Hs H. apply cut_Some in H. subst s.
  rewrite !length_append. destruct sep; [congruence | simpl; lia].
Qed.

Lemma cut_here (sep x : string) :
  cut sep (sep ++ x) = Some ("", x).
Proof.
  destruct (sep ++ x) eqn:E; simpl; rewrite <- E, startsWith_append, drop_append;
    reflexivity.
Qed.

Lemma cut_empty_iff (sep s b : string) :
  cut sep s = Some ("", b) -> startsWith sep s = true.
Proof.
  destruct s as [|c s]; simpl.
  - now destruct (startsWith sep "").
  - destruct (startsWith sep (String c s)); [reflexivity|].
    destruct (cut sep s) as [[a' b']|]; discriminate.
Qed.

(** Only the text up to the end of the first occurrence decides where
    [cut] cuts: the text after it can be replaced. *)
Lemma cut_replace_tail (sep s a b x : string) :
  cut sep s = Some (a, b) -> cut sep (a ++ sep ++ x) = Some (a, x).
Proof.
  revert s b; induction a as [|c a IH]; intros s b H.
  - simpl. apply cut_here.
  - pose proof (cut_Some _ _ _ _ H) as Hs. subst s.
    simpl in H |- *.
    destruct (startsWith sep (String c (a ++ sep ++ b))) eqn:E; [discriminate|].
    assert (E' : startsWith sep (String c (a ++ sep ++ x)) = false).
    { rewrite <- E.
      change (String c (a ++ sep ++ x)) with (String c a ++ (sep ++ x)).
      change (String c (a ++ sep ++ b)) with (String c a ++ (sep ++ b)).
      rewrite <- !append_assoc.
      apply startsWith_prefix_only. rewrite length_append. simpl. lia. }
    rewrite E'.
    destruct (cut sep (a ++ sep ++ b)) as [[a' b']|] eqn:Ec; [|discriminate].
    inversion H; subst a' b'.
    now rewrite (IH _ _ Ec).
Qed.

(** *** [split] *)

Lemma split_upto_enough (sep : string) (n m : nat) (s : string) :
  sep <> "" -> String.length s <= n -> String.length s <= m ->
  split_upto n sep s = split_upto m sep s.
Proof.
  intros Hs. revert m s; induction n as [|n IH]; intros m s Hn Hm.
  - destruct m; cbn [split_upto]; [reflexivity|].
    destruct (cut sep s) as [[a b]|] eqn:E; [|reflexivity].
    apply cut_shorter in E; [lia | assumption].
  - destruct m as [|m]; cbn [split_upto];
      (destruct (cut sep s) as [[a b]|] eqn:E; [|reflexivity]);
      pose proof (cut_shorter _ _ _ _ Hs E).
    + lia.
    + f_equal. apply IH; lia.
Qed.

Lemma split_unfold (sep s : string) :
  sep <> "" ->
  split sep s = match cut sep s with
                | None => [s]
                | Some (a, b) => a :: split sep b
                end.
Proof.
  intros Hs. unfold split.
  destruct (String.length s) as [|n] eqn:El; cbn [split_upto];
    (destruct (cut sep s) as [[a b]|] eqn:E; [|reflexivity]);
    pose proof (cut_shorter _ _ _ _ Hs E).
  - lia.
  - f_equal. apply split_upto_enough; [assumption | lia | lia].
Qed.

End JsStringFacts.

(* ------------------------------------------------------------------ *)
(** ** Facts on segments and on the normalization loop *)
(* ------------------------------------------------------------------ *)

Module PathFacts.
Import JsString Js Path Spec Segments JsStringFacts.

Lemma slash_nonempty : "/" <> "".
Proof. discriminate. Qed.

Lemma scheme_sep_nonempty : "://" <> "".
Proof. discriminate. Qed.

Lemma segments_nonempty (s : string) : segments s <> [].
Proof.
  induction s as [|c s IH]; simpl; [discriminate|].
  destruct (Ascii.eqb c "/"); [discriminate|].
  destruct (segments s); discriminate.
Qed.

Lemma cut_slash (c : ascii) (s : string) :
  cut "/" (String c s) =
  if Ascii.eqb c "/" then Some ("", s)
  else match cut "/" s with
       | Some (a, b) => Some (String c a, b)
       | None => None
       end.
Proof.
  cbn [cut startsWith]. rewrite (Ascii.eqb_sym "/" c).
  destruct (Ascii.eqb c "/"); simpl; reflexivity.
Qed.

(** [split "/"] computes the segments. *)
Lemma split_slash (s : string) : split "/" s = segments s.
Proof.
  induction s as [|c s IH].
  - reflexivity.
  - rewrite split_unfold by exact slash_nonempty.
    rewrite cut_slash. cbn [segments].
    destruct (Ascii.eqb c "/").
    + now rewrite IH.
    + rewrite <- IH, (split_unfold "/" s) by exact slash_nonempty.
      destruct (cut "/" s) as [[a b]|]; reflexivity.
Qed.

Lemma segments_app (u v : string) :
  segments (u ++ "/" ++ v) = (segments u ++ segments v)%list.
Proof.
  induction u as [|c u IH]; simpl.
  - reflexivity.
  - simpl in IH. rewrite IH.
    destruct (Ascii.eqb c "/"); [reflexivity|].
    destruct (segments u) eqn:E; [now apply segments_nonempty in E|].
    reflexivity.
Qed.

Lemma join_cons (x : string) (l : list string) :
  l <> [] -> join "/" (x :: l) = x ++ "/" ++ join "/" l.
Proof. destruct l; [congruence | reflexivity]. Qed.

Lemma join_segments (s : string) : join "/" (segments s) = s.
Proof.
  induction s as [|c s IH]; [reflexivity|].
  cbn [segments].
  destruct (Ascii.eqb c "/") eqn:E.
  - apply Ascii.eqb_eq in E; subst c.
    rewrite join_cons by apply segments_nonempty. now rewrite IH.
  - destruct (segments s) as [|x r] eqn:Es; [now apply segments_nonempty in Es|].
    destruct r as [|y r].
    + simpl in *. now rewrite IH.
    + rewrite join_cons by discriminate.
      rewrite join_cons in IH by discriminate.
      rewrite <- IH. reflexivity.
Qed.

Lemma segments_slash_free (s : string) : Forall slash_free (segments s).
Proof.
  induction s as [|c s IH]; cbn [segments].
  - constructor; [reflexivity | constructor].
  - destruct (Ascii.eqb c "/") eqn:E.
    + constructor; [reflexivity | exact IH].
    + destruct (segments s) as [|x r]; [constructor; [|constructor]|].
      * unfold slash_free. simpl. now rewrite E.
      * inversion IH as [|? ? Hx Hr]; subst.
        constructor; [|exact Hr].
        unfold slash_free in *. cbn [segments]. now rewrite E, Hx.
Qed.

Lemma segments_join (l : list string) :
  l <> [] -> Forall slash_free l -> segments (join "/" l) = l.
Proof.
  induction l as [|x l IH]; intros Hne Hl; [congruence|].
  inversion Hl as [|? ? Hx Hr]; subst.
  destruct l as [|y l].
  - exact Hx.
  - rewrite join_cons by discriminate.
    rewrite segments_app, Hx, IH; [reflexivity | discriminate | exact Hr].
Qed.

(** *** The loop is a left fold *)

Lemma normalize_loop_fold (n : nat) (parts : list string) (i : nat)
    (normParts : list string) :
  List.length parts - i <= n ->
  normalize_loop n parts i normParts
  = fold_left loop_step (skipn i parts) normParts.
Proof.
  revert i normParts; induction n as [|n IH]; intros i acc Hn.
  - simpl. rewrite skipn_all2 by lia. reflexivity.
  - cbn [normalize_loop].
    destruct (nth_error parts i) as [p|] eqn:E.
    + assert (Hs : skipn i parts = p :: skipn (S i) parts).
      { clear - E. revert i E; induction parts as [|x l IHl]; intros i E.
        - destruct i; discriminate.
        - destruct i; simpl in *; [now inversion E | now apply IHl]. }
      assert (Hi : i < List.length parts)
        by (apply nth_error_Some; congruence).
      rewrite Hs. cbn [fold_left]. unfold loop_step at 2.
      destruct (p =? "."); [apply IH; lia|].
      destruct (p =? ".."); apply IH; lia.
    + apply nth_error_None in E. rewrite skipn_all2 by lia. reflexivity.
Qed.

Lemma normParts_of_fold (schemeless : string) :
  normParts_of schemeless = fold_left loop_step (segments schemeless) [].
Proof.
  unfold normParts_of. rewrite normalize_loop_fold by lia.
  now rewrite split_slash.
Qed.

(** The array of the loop is the stack of the specification, reversed. *)
Lemma loop_step_fold_step (segs kept : list string) :
  fold_left loop_step segs (rev kept) = rev (fold_left fold_step segs kept).
Proof.
  revert kept; induction segs as [|p segs IH]; intros kept; [reflexivity|].
  cbn [fold_left]. unfold loop_step at 2, fold_step at 2.
  destruct (p =? "."); [apply IH|].
  destruct (p =? "..").
  - rewrite <- IH. f_equal. unfold pop.
    destruct kept as [|k kept]; [reflexivity|].
    simpl. apply removelast_last.
  - rewrite <- IH. reflexivity.
Qed.

Lemma normParts_of_spec (schemeless : string) :
  normParts_of schemeless = fold_segments (split "/" schemeless).
Proof.
  rewrite normParts_of_fold, split_slash. unfold fold_segments.
  apply (loop_step_fold_step _ []).
Qed.

(** *** What the loop keeps *)

Lemma fold_loop_Forall (P : string -> Prop) (segs acc : list string) :
  Forall P segs -> Forall P acc -> Forall P (fold_left loop_step segs acc).
Proof.
  revert acc; induction segs as [|p segs IH]; intros acc Hs Ha; [exact Ha|].
  inversion Hs; subst. cbn [fold_left]. apply IH; [assumption|].
  unfold loop_step. destruct (p =? "."); [exact Ha|].
  destruct (p =? "..").
  - unfold pop. destruct acc as [|a acc] using rev_ind; [constructor|].
    rewrite removelast_last. apply Forall_app in Ha. tauto.
  - unfold push. apply Forall_app. split; [exact Ha|]. now constructor.
Qed.

Lemma fold_loop_no_dot (segs acc : list string) :
  Forall (fun p => is_dot p = false) acc ->
  Forall (fun p => is_dot p = false) (fold_left loop_step segs acc).
Proof.
  revert acc; induction segs as [|p segs IH]; intros acc Ha; [exact Ha|].
  cbn [fold_left]. apply IH. unfold loop_step.
  destruct (p =? ".") eqn:E1; [exact Ha|].
  destruct (p =? "..") eqn:E2.
  - unfold pop. destruct acc as [|a acc] using rev_ind; [constructor|].
    rewrite removelast_last. apply Forall_app in Ha. tauto.
  - unfold push. apply Forall_app. split; [exact Ha|].
    constructor; [|constructor]. unfold is_dot. now rewrite E1, E2.
Qed.

Lemma fold_loop_dot_free (segs acc : list string) :
  Forall (fun p => is_dot p = false) segs ->
  fold_left loop_step segs acc = (acc ++ segs)%list.
Proof.
  revert acc; induction segs as [|p segs IH]; intros acc Hs.
  - now rewrite app_nil_r.
  - inversion Hs as [|? ? Hp Hr]; subst. cbn [fold_left].
    unfold is_dot in Hp. apply orb_false_iff in Hp as [E1 E2].
    unfold loop_step. rewrite E1, E2. rewrite IH by exact Hr.
    unfold push. now rewrite <- app_assoc.
Qed.

(** A normalized body has no ["."] or [".."] segment left. *)
Lemma normalizeBody_dot_free (x : string) : dot_free (normalizeBody x).
Proof.
  unfold dot_free, normalizeBody. rewrite normParts_of_fold.
  destruct (fold_left loop_step (segments x) []) as [|k l] eqn:E.
  - simpl. constructor; [reflexivity | constructor].
  - rewrite segments_join.
    + rewrite <- E. apply fold_loop_no_dot. constructor.
    + discriminate.
    + rewrite <- E. apply fold_loop_Forall;
        [apply segments_slash_free | constructor].
Qed.

(** A body without such segments is left as it is. *)
Lemma normalizeBody_fixed (x : string) : dot_free x -> normalizeBody x = x.
Proof.
  intros H. unfold normalizeBody.
  rewrite normParts_of_fold, fold_loop_dot_free by exact H.
  apply join_segments.
Qed.

Lemma dot_free_after_slash (u v : string) :
  dot_free (u ++ "/" ++ v) -> dot_free v.
Proof.
  unfold dot_free. rewrite segments_app. intros H.
  apply Forall_app in H. tauto.
Qed.

End PathFacts.

(* ------------------------------------------------------------------ *)
(** ** normalizePath *)
(* ------------------------------------------------------------------ *)

Module NormalizeFacts.
Import JsString Js Path Spec Segments JsStringFacts PathFacts.

Lemma split_length_pos (sep s : string) :
  sep <> "" -> 1 <= List.length (split sep s).
Proof.
  intros Hs. rewrite split_unfold by exact Hs.
  destruct (cut sep s) as [[a b]|]; simpl; lia.
Qed.

Lemma startsWith_extend (p u v : string) :
  startsWith p u = true -> startsWith p (u ++ v) = true.
Proof.
  revert u; induction p as [|c p IH]; intros u H; simpl in *; [reflexivity|].
  destruct u as [|d u]; [discriminate|]. simpl.
  apply andb_true_iff in H as [H1 H2]. now rewrite H1, (IH u H2).
Qed.

(** Nothing before the first occurrence is an occurrence. *)
Lemma cut_before_none (sep s a b : string) :
  sep <> "" -> cut sep s = Some (a, b) -> cut sep a = None.
Proof.
  intros Hs. revert a b; induction s as [|c s IH]; intros a b H.
  - simpl in H. destruct (startsWith sep "") eqn:E; [|discriminate].
    destruct sep; [congruence | discriminate].
  - cbn [cut] in H.
    destruct (startsWith sep (String c s)) eqn:E.
    + inversion H; subst. destruct sep; [congruence | reflexivity].
    + destruct (cut sep s) as [[a' b']|] eqn:Ec; [|discriminate].
      inversion H; subst a b'.
      pose proof (cut_Some _ _ _ _ Ec) as Hs'. subst s.
      cbn [cut]. rewrite (IH _ _ eq_refl).
      destruct (startsWith sep (String c a')) eqn:E'; [|reflexivity].
      apply (startsWith_extend _ _ (sep ++ b)) in E'.
      simpl in E, E'. congruence.
Qed.

(** [cut] finds the leftmost occurrence. *)
Lemma cut_leftmost (sep s a b a' b' : string) :
  cut sep s = Some (a, b) -> s = a' ++ sep ++ b' ->
  String.length a <= String.length a'.
Proof.
  revert a b a' b'; induction s as [|c s IH]; intros a b a' b' H Hs.
  - simpl in H. destruct (startsWith sep ""); [|discriminate].
    inversion H; simpl; lia.
  - cbn [cut] in H.
    destruct (startsWith sep (String c s)) eqn:E.
    + inversion H; simpl; lia.
    + destruct (cut sep s) as [[a0 b0]|] eqn:Ec; [|discriminate].
      inversion H; subst a b0.
      destruct a' as [|d a'].
      * simpl in Hs. rewrite Hs, startsWith_append in E. discriminate.
      * simpl in Hs. inversion Hs; subst d s.
        simpl. apply le_n_S. eapply IH; reflexivity.
Qed.

Lemma scheme_split_none (p : string) :
  cut "://" p = None -> scheme_split p = Ok (None, p).
Proof. intros H. unfold scheme_split, indexOf. now rewrite H. Qed.

(** With a separator present, [scheme] is the text before its first
    occurrence and [schemeless] the text up to the next one. *)
Lemma scheme_split_some (p a b : string) :
  cut "://" p = Some (a, b) ->
  scheme_split p = Ok (Some a, match cut "://" b with
                               | Some (x, _) => x
                               | None => b
                               end).
Proof.
  intros H. unfold scheme_split, indexOf. rewrite H.
  replace (Z.of_nat (String.length a) >? -1)%Z with true
    by (symmetry; apply Z.gtb_lt; lia).
  rewrite split_unfold, H by exact scheme_sep_nonempty.
  rewrite (split_unfold "://" b) by exact scheme_sep_nonempty.
  destruct (cut "://" b) as [[x y]|]; reflexivity.
Qed.

Lemma scheme_split_total (p : string) :
  exists scheme schemeless, scheme_split p = Ok (scheme, schemeless).
Proof.
  destruct (cut "://" p) as [[a b]|] eqn:E.
  - rewrite (scheme_split_some _ _ _ E). eauto.
  - rewrite (scheme_split_none _ E). eauto.
Qed.

Lemma normalizePath_eq (p : string) (scheme : option string)
    (schemeless : string) :
  scheme_split p = Ok (scheme, schemeless) ->
  normalizePath (VString p) = Ok (reassemble scheme (normParts_of schemeless)).
Proof. intros H. unfold normalizePath. now rewrite H. Qed.

(** The two shapes of a normalized path. *)
Lemma normalizePath_shape (p q : string) :
  normalizePath (VString p) = Ok q ->
  (exists x, q = normalizeBody x) \/
  (exists s b x, s <> "" /\ cut "://" p = Some (s, b) /\
                 q = s ++ "://" ++ normalizeBody x).
Proof.
  intros H.
  destruct (cut "://" p) as [[a b]|] eqn:E.
  - rewrite (normalizePath_eq _ _ _ (scheme_split_some _ _ _ E)) in H.
    inversion H as [Hq]. unfold reassemble.
    destruct (a =? "") eqn:Ea; simpl.
    + left. eexists. reflexivity.
    + right. apply String.eqb_neq in Ea. do 3 eexists.
      split; [exact Ea|]. split; reflexivity.
  - rewrite (normalizePath_eq _ _ _ (scheme_split_none _ E)) in H.
    inversion H. left. eexists. reflexivity.
Qed.

Lemma normalize_fixed (q : string) :
  (List.length (split "://" q) <= 2)%nat ->
  startsWith "://" q = false ->
  ((exists x, q = normalizeBody x) \/
   (exists s b x, cut "://" (s ++ "://" ++ b) = Some (s, b) /\
                  q = s ++ "://" ++ normalizeBody x)) ->
  normalizePath (VString q) = Ok q.
Proof.
  intros Hlen Hstart Hshape.
  destruct (cut "://" q) as [[s0 r]|] eqn:E.
  - (* one separator: the text after it has none *)
    assert (Hr : cut "://" r = None).
    { rewrite split_unfold, E in Hlen by exact scheme_sep_nonempty.
      rewrite split_unfold in Hlen by exact scheme_sep_nonempty.
      destruct (cut "://" r) as [[x y]|]; [|reflexivity].
      pose proof (split_length_pos "://" y scheme_sep_nonempty).
      simpl in Hlen. lia. }
    assert (Hs0 : s0 <> "").
    { intros ->. apply cut_empty_iff in E. congruence. }
    pose proof (cut_Some _ _ _ _ E) as Hq.
    rewrite (normalizePath_eq _ _ _ (scheme_split_some _ _ _ E)), Hr.
    unfold reassemble. apply String.eqb_neq in Hs0. rewrite Hs0. simpl negb.
    cbv iota. f_equal. rewrite Hq. do 2 f_equal.
    change (join "/" (normParts_of r)) with (normalizeBody r).
    apply normalizeBody_fixed.
    destruct Hshape as [[x Hx] | (s & b & x & Hc & Hx)].
    + pose proof (normalizeBody_dot_free x) as Hd. rewrite <- Hx, Hq in Hd.
      replace (s0 ++ "://" ++ r) with ((s0 ++ ":") ++ "/" ++ ("" ++ "/" ++ r))
        in Hd by (rewrite append_assoc; reflexivity).
      now apply dot_free_after_slash, dot_free_after_slash in Hd.
    + pose proof (cut_replace_tail _ _ _ _ (normalizeBody x) Hc) as Hc'.
      rewrite <- Hx, E in Hc'. inversion Hc'; subst.
      apply normalizeBody_dot_free.
  - rewrite (normalizePath_eq _ _ _ (scheme_split_none _ E)).
    unfold reassemble. f_equal.
    destruct Hshape as [[x Hx] | (s & b & x & Hc & Hx)].
    + apply normalizeBody_fixed. rewrite Hx. apply normalizeBody_dot_free.
    + pose proof (cut_replace_tail _ _ _ _ (normalizeBody x) Hc) as Hc'.
      rewrite <- Hx, E in Hc'. discriminate.
Qed.

End NormalizeFacts.

(* ------------------------------------------------------------------ *)
(** ** Properties of normalizePath *)
(* ------------------------------------------------------------------ *)

Module NormalizeTheory.
Import JsString Js Path Spec Segments JsStringFacts PathFacts NormalizeFacts.

(** *** Lengths: normalization never lengthens a body *)

Lemma join_length (l : list string) :
  String.length (join "/" l) = weight l - 1.
Proof.
  induction l as [|x l IH]; [reflexivity|].
  destruct l as [|y l].
  - simpl. lia.
  - rewrite join_cons by discriminate.
    rewrite !length_append, IH. simpl. lia.
Qed.

Lemma weight_app (a b : list string) : weight (a ++ b) = weight a + weight b.
Proof. induction a as [|x a IH]; simpl; [reflexivity | rewrite IH; lia]. Qed.

Lemma weight_pop (a : list string) : weight (pop a) <= weight a.
Proof.
  unfold pop. destruct a as [|x a] using rev_ind; [simpl; lia|].
  rewrite removelast_last, weight_app. lia.
Qed.

Lemma weight_fold (segs acc : list string) :
  weight (fold_left loop_step segs acc) <= weight acc + weight segs.
Proof.
  revert acc; induction segs as [|p segs IH]; intros acc; simpl; [lia|].
  etransitivity; [apply IH|]. unfold loop_step.
  destruct (p =? "."); [lia|].
  destruct (p =? "..").
  - pose proof (weight_pop acc). lia.
  - unfold push. rewrite weight_app. simpl. lia.
Qed.

Lemma normalizeBody_length (x : string) :
  String.length (normalizeBody x) <= String.length x.
Proof.
  unfold normalizeBody. rewrite normParts_of_fold, join_length.
  pose proof (weight_fold (segments x) []) as H. simpl in H.
  rewrite <- (join_segments x) at 2. rewrite join_length. lia.
Qed.

Lemma startsWith_cut (sep s : string) :
  startsWith sep s = true ->
  cut sep s = Some ("", drop (String.length sep) s).
Proof. intros H. destruct s; simpl in *; rewrite H; reflexivity. Qed.

(** A fixed point of [normalizePath] has at most one separator and does
    not begin with it. *)
Lemma normalize_fixed_only (q : string) :
  normalizePath (VString q) = Ok q ->
  occurrences "://" q <= 1 /\ startsWith "://" q = false.
Proof.
  intros H. unfold occurrences.
  destruct (cut "://" q) as [[s0 r]|] eqn:E.
  - pose proof (cut_Some _ _ _ _ E) as Hq.
    rewrite (normalizePath_eq _ _ _ (scheme_split_some _ _ _ E)) in H.
    injection H as Hr.
    apply (f_equal String.length) in Hr.
    rewrite Hq in Hr. rewrite !length_append in Hr. simpl in Hr.
    unfold reassemble in Hr.
    change (join "/" (normParts_of ?x)) with (normalizeBody x) in Hr.
    destruct (cut "://" r) as [[x y]|] eqn:Er.
    + exfalso. pose proof (cut_Some _ _ _ _ Er) as Hr'.
      apply (f_equal String.length) in Hr'.
      rewrite !length_append in Hr'. simpl in Hr'.
      pose proof (normalizeBody_length x).
      destruct (s0 =? ""); simpl in Hr;
        rewrite ?length_append in Hr; simpl in Hr; lia.
    + pose proof (normalizeBody_length r).
      destruct (s0 =? "") eqn:Es; simpl in Hr;
        rewrite ?length_append in Hr; simpl in Hr; [lia|].
      split.
      * rewrite split_unfold, E by exact scheme_sep_nonempty.
        rewrite split_unfold, Er by exact scheme_sep_nonempty. simpl. lia.
      * destruct (startsWith "://" q) eqn:Est; [|reflexivity].
        rewrite (startsWith_cut _ _ Est) in E. inversion E; subst.
        discriminate.
  - split.
    + rewrite split_unfold, E by exact scheme_sep_nonempty. simpl. lia.
    + destruct (startsWith "://" q) eqn:Est; [|reflexivity].
      rewrite (startsWith_cut _ _ Est) in E. discriminate.
Qed.

Lemma normalizePath_total (p : string) :
  exists q, normalizePath (VString p) = Ok q.
Proof.
  destruct (scheme_split_total p) as (s & b & H).
  rewrite (normalizePath_eq _ _ _ H). eauto.
Qed.

(** C6, as the code has it: the normal form of a path is left unchanged by
    a second normalization exactly when it holds the separator ["://"] at
    most once and does not begin with it. *)
Theorem normalizePath_idempotent_iff (p q : string) :
  normalizePath (VString p) = Ok q ->
  (normalizePath (VString q) = Ok q <->
   occurrences "://" q <= 1 /\ startsWith "://" q = false).
Proof.
  intros Hp. split.
  - apply normalize_fixed_only.
  - intros [Hocc Hst]. apply normalize_fixed.
    + unfold occurrences in Hocc. lia.
    + exact Hst.
    + destruct (normalizePath_shape _ _ Hp) as [Hx | (s & b & x & _ & Hc & Hx)].
      * left; exact Hx.
      * right. exists s, b, x. split; [|exact Hx].
        now rewrite <- (cut_Some _ _ _ _ Hc).
Qed.

(** On ["a/b/./c/../d"], whose normal form holds no separator. *)
Lemma normalizePath_idempotent_iff_witness :
  normalizePath (VString "a/b/./c/../d") = Ok "a/b/d" /\
  (normalizePath (VString "a/b/d") = Ok "a/b/d" <->
   occurrences "://" "a/b/d" <= 1 /\ startsWith "://" "a/b/d" = false).
Proof.
  split; [reflexivity|].
  apply (normalizePath_idempotent_iff "a/b/./c/../d" "a/b/d"). reflexivity.
Defined.

(** C7: the loop of [normalizePath] is the left fold of the specification
    over the segments of [schemeless], and the two examples. *)
Theorem normalizePath_left_fold :
  (forall p : string, exists scheme schemeless,
      scheme_split p = Ok (scheme, schemeless) /\
      normParts_of schemeless = fold_segments (split "/" schemeless) /\
      normalizePath (VString p)
      = Ok (reassemble scheme (fold_segments (split "/" schemeless)))) /\
  normalizePath (VString "a/b/./c/../d") = Ok "a/b/d" /\
  normalizePath (VString "scheme://x/../y") = Ok "scheme://y".
Proof.
  split; [|split; reflexivity].
  intros p. destruct (scheme_split_total p) as (s & b & H).
  exists s, b. split; [exact H|]. split; [apply normParts_of_spec|].
  rewrite (normalizePath_eq _ _ _ H). now rewrite normParts_of_spec.
Qed.

(** C10: with the separator present more than once, the body is the text
    between its first two occurrences, and nothing from the second
    occurrence on reaches the result. *)
Theorem normalizePath_drops_after_second_separator (p : string) :
  occurrences "://" p > 1 ->
  exists scheme body rest,
    p = scheme ++ "://" ++ body ++ "://" ++ rest /\
    cut "://" p = Some (scheme, body ++ "://" ++ rest) /\
    cut "://" (body ++ "://" ++ rest) = Some (body, rest) /\
    normalizePath (VString p)
    = Ok (reassemble (Some scheme) (normParts_of body)) /\
    forall rest',
      normalizePath (VString (scheme ++ "://" ++ body ++ "://" ++ rest'))
      = normalizePath (VString p) /\
      normalizePath (VString (scheme ++ "://" ++ body))
      = normalizePath (VString p).
Proof.
  unfold occurrences. intros Hocc.
  rewrite split_unfold in Hocc by exact scheme_sep_nonempty.
  destruct (cut "://" p) as [[s r]|] eqn:E; [|simpl in Hocc; lia].
  rewrite split_unfold in Hocc by exact scheme_sep_nonempty.
  destruct (cut "://" r) as [[b t]|] eqn:Er; [|simpl in Hocc; lia].
  pose proof (cut_Some _ _ _ _ E) as Hp.
  pose proof (cut_Some _ _ _ _ Er) as Hr.
  exists s, b, t. rewrite <- Hr.
  split; [exact Hp|]. split; [reflexivity|]. split; [exact Er|].
  assert (Hn : normalizePath (VString p)
               = Ok (reassemble (Some s) (normParts_of b))).
  { rewrite (normalizePath_eq _ _ _ (scheme_split_some _ _ _ E)).
    now rewrite Er. }
  split; [exact Hn|].
  intros rest'. rewrite Hn. split.
  - pose proof (cut_replace_tail _ _ _ _ (b ++ "://" ++ rest') E) as E1.
    pose proof (cut_replace_tail _ _ _ _ rest' Er) as E2.
    rewrite (normalizePath_eq _ _ _ (scheme_split_some _ _ _ E1)).
    now rewrite E2.
  - pose proof (cut_replace_tail _ _ _ _ b E) as E1.
    pose proof (cut_before_none _ _ _ _ scheme_sep_nonempty Er) as E2.
    rewrite (normalizePath_eq _ _ _ (scheme_split_some _ _ _ E1)).
    now rewrite E2.
Qed.

(** On ["a://b://c"]: the result is ["a://b"]. *)
Lemma normalizePath_drops_after_second_separator_witness :
  occurrences "://" "a://b://c" > 1 /\
  normalizePath (VString "a://b://c") = Ok "a://b" /\
  exists scheme body rest,
    "a://b://c" = scheme ++ "://" ++ body ++ "://" ++ rest /\
    cut "://" "a://b://c" = Some (scheme, body ++ "://" ++ rest) /\
    cut "://" (body ++ "://" ++ rest) = Some (body, rest) /\
    normalizePath (VString "a://b://c")
    = Ok (reassemble (Some scheme) (normParts_of body)) /\
    forall rest',
      normalizePath (VString (scheme ++ "://" ++ body ++ "://" ++ rest'))
      = normalizePath (VString "a://b://c") /\
      normalizePath (VString (scheme ++ "://" ++ body))
      = normalizePath (VString "a://b://c").
Proof.
  split; [vm_compute; lia|]. split; [reflexivity|].
  apply (normalizePath_drops_after_second_separator "a://b://c").
  vm_compute; lia.
Defined.

End NormalizeTheory.

(* ------------------------------------------------------------------ *)
(** ** rootDir and getJobId *)
(* ------------------------------------------------------------------ *)

Module RootFacts.
Import JsString Js Path Spec Segments JsStringFacts NormalizeTheory.

(** The loop returns the first directory that is a prefix of the path. *)
Lemma rootDir_loop_find (q : string) (dirs : list string) :
  rootDir_loop q dirs = List.find (fun d => startsWith d q) dirs.
Proof.
  induction dirs as [|d dirs IH]; [reflexivity|].
  cbn [rootDir_loop List.find]. rewrite substring_prefix_test.
  destruct (startsWith d q) eqn:E; [|exact IH].
  now rewrite (substring_prefix_value _ _ E).
Qed.

Lemma find_first {A} (f : A -> bool) (l : list A) (i : nat) (x : A) :
  nth_error l i = Some x -> f x = true ->
  (forall j y, j < i -> nth_error l j = Some y -> f y = false) ->
  List.find f l = Some x.
Proof.
  revert i; induction l as [|a l IH]; intros i Hi Hx Hbefore.
  - destruct i; discriminate.
  - destruct i as [|i]; simpl in *.
    + inversion Hi; subst. now rewrite Hx.
    + rewrite (Hbefore 0 a) by (try lia; reflexivity).
      apply (IH i); [assumption | assumption |].
      intros j y Hj Hy. apply (Hbefore (S j) y); [lia | exact Hy].
Qed.

Lemma find_none {A} (f : A -> bool) (l : list A) :
  (forall x, In x l -> f x = false) -> List.find f l = None.
Proof.
  induction l as [|a l IH]; intros H; [reflexivity|]. simpl.
  rewrite (H a) by now left. apply IH. intros x Hx. apply H. now right.
Qed.

Lemma validDirs_order (cfg : config) (dirs : list string) :
  validDirs cfg = Ok dirs ->
  exists caches documents,
    processDirPath cfg (NSCachesDirectoryPath cfg) = Ok caches /\
    processDirPath cfg (NSDocumentDirectoryPath cfg) = Ok documents /\
    if OS cfg =? "ios"
    then exists library,
        processDirPath cfg (NSLibraryDirectoryPath cfg) = Ok library /\
        dirs = [caches; documents; library]
    else dirs = [caches; documents].
Proof.
  unfold validDirs. intros H.
  destruct (processDirPath cfg (NSCachesDirectoryPath cfg)) as [c|]; [|discriminate].
  destruct (processDirPath cfg (NSDocumentDirectoryPath cfg)) as [d|]; [|discriminate].
  simpl in H. exists c, d. split; [reflexivity|]. split; [reflexivity|].
  destruct (OS cfg =? "ios").
  - destruct (processDirPath cfg (NSLibraryDirectoryPath cfg)) as [l|]; [|discriminate].
    simpl in H. inversion H. eauto.
  - now inversion H.
Qed.

(** C8: [rootDir] tries the sandboxed roots in the fixed order caches,
    documents, then library on iOS only, against the normalized path; it
    returns the first root [R] in that order that is a prefix of it, and
    null when no root is a prefix. *)
Theorem rootDir_first_matching_root (cfg : config) (p : string)
    (dirs : list string) :
  validDirs cfg = Ok dirs ->
  (exists caches documents,
      processDirPath cfg (NSCachesDirectoryPath cfg) = Ok caches /\
      processDirPath cfg (NSDocumentDirectoryPath cfg) = Ok documents /\
      if OS cfg =? "ios"
      then exists library,
          processDirPath cfg (NSLibraryDirectoryPath cfg) = Ok library /\
          dirs = [caches; documents; library]
      else dirs = [caches; documents]) /\
  exists q,
    normalizePath (VString p) = Ok q /\
    (forall i R,
        nth_error dirs i = Some R -> startsWith R q = true ->
        (forall j R', j < i -> nth_error dirs j = Some R' ->
                      startsWith R' q = false) ->
        rootDir cfg (VString p) = Ok (Some R)) /\
    ((forall R, In R dirs -> startsWith R q = false) ->
     rootDir cfg (VString p) = Ok None).
Proof.
  intros Hd. split; [now apply validDirs_order|].
  destruct (normalizePath_total p) as [q Hq]. exists q.
  split; [exact Hq|].
  unfold rootDir. rewrite Hq, Hd. simpl. rewrite rootDir_loop_find. split.
  - intros i R Hi HR Hbefore. f_equal.
    now apply (find_first _ _ i).
  - intros Hnone. f_equal. now apply find_none.
Qed.

End RootFacts.

Module JobFacts.
Import JsString Js Path Facade Observe.

Lemma add1_exact (n : Z) : (n < max_exact)%Z -> add1 n = (n + 1)%Z.
Proof. intros H. unfold add1. apply Z.ltb_lt in H. now rewrite H. Qed.

Lemma issue_ids (N : nat) (w : world) :
  (jobId w + Z.of_nat N <= max_exact)%Z ->
  issue N w =
  (map (fun k => (jobId w + Z.of_nat k)%Z) (seq 1 N),
   {| jobId := (jobId w + Z.of_nat N)%Z; trace := trace w |}).
Proof.
  revert w; induction N as [|N IH]; intros w H.
  - simpl. unfold ret. rewrite Z.add_0_r. now destruct w.
  - cbn [issue]. unfold mbind, getJobId at 1.
    rewrite add1_exact by lia.
    rewrite IH by (cbn [jobId]; lia).
    cbn [jobId trace]. unfold ret. f_equal.
    + cbn [seq map]. f_equal.
      rewrite <- (seq_shift N 1), map_map. apply map_ext. intros k. lia.
    + f_equal. lia.
Qed.

Lemma increasing_from (j : Z) (start N : nat) :
  StronglySorted Z.lt (map (fun k => (j + Z.of_nat k)%Z) (seq start N)).
Proof.
  revert start; induction N as [|N IH]; intros start; simpl; constructor.
  - apply IH.
  - apply Forall_forall. intros x Hx. apply in_map_iff in Hx as (k & <- & Hk).
    apply in_seq in Hk. lia.
Qed.

Lemma sorted_NoDup (l : list Z) : StronglySorted Z.lt l -> NoDup l.
Proof.
  induction 1 as [|a l Hs IH Ha]; constructor; [|exact IH].
  intros Hin. rewrite Forall_forall in Ha. specialize (Ha a Hin). lia.
Qed.

(** C9: the identifiers come from the one counter, incremented before it
    is returned: [N] calls of [getJobId] yield [N] integers above zero,
    strictly increasing in issuance order and pairwise distinct, and the
    counter ends on the last one issued.  From the initial counter 0 these
    are [1 .. N]; the counter is a number, exact for the [2^53] jobs a
    process can count. *)
Theorem getJobId_issues_increasing_ids (w : world) (N : nat) :
  (0 <= jobId w)%Z ->
  (jobId w + Z.of_nat N <= max_exact)%Z ->
  let ids := fst (issue N w) in
  ids = map (fun k => (jobId w + Z.of_nat k)%Z) (seq 1 N) /\
  List.length ids = N /\
  Forall (fun j => (0 < j /\ jobId w < j)%Z) ids /\
  StronglySorted Z.lt ids /\
  NoDup ids /\
  jobId (snd (issue N w)) = (jobId w + Z.of_nat N)%Z.
Proof.
  intros H0 Hmax. rewrite issue_ids by exact Hmax. cbn [fst snd jobId].
  split; [reflexivity|].
  split; [now rewrite length_map, length_seq|].
  split.
  { apply Forall_forall. intros x Hx. apply in_map_iff in Hx as (k & <- & Hk).
    apply in_seq in Hk. lia. }
  split; [apply increasing_from|].
  split; [apply sorted_NoDup, increasing_from | reflexivity].
Qed.

(** The first three identifiers of a process. *)
Lemma getJobId_issues_increasing_ids_witness :
  (0 <= jobId initial)%Z /\
  (jobId initial + Z.of_nat 3 <= max_exact)%Z /\
  fst (issue 3 initial) = [1; 2; 3]%Z /\
  NoDup (fst (issue 3 initial)).
Proof.
  assert (H0 : (0 <= jobId initial)%Z) by (simpl; lia).
  assert (H1 : (jobId initial + Z.of_nat 3 <= max_exact)%Z)
    by (vm_compute; discriminate).
  pose proof (getJobId_issues_increasing_ids initial 3 H0 H1) as H.
  split; [exact H0|]. split; [exact H1|].
  split; [reflexivity | apply H].
Defined.

End JobFacts.

(* ------------------------------------------------------------------ *)
(** ** The facade *)
(* ------------------------------------------------------------------ *)

Module FacadeFacts.
Import JsString Js Path Facade Observe JsStringFacts RootFacts.

Lemma extend_extend (w : world) (a b : list event) :
  extend (extend w a) b = extend w (a ++ b).
Proof. unfold extend. cbn [jobId trace]. now rewrite app_assoc. Qed.

Lemma processDirPath_nonempty (cfg : config) (v : value) (r : string) :
  processDirPath cfg v = Ok r -> r <> "".
Proof.
  unfold processDirPath. destruct v; try discriminate.
  destruct (appID cfg) as [a|]; [|discriminate].
  destruct (String.length a <? 1)%nat; [discriminate|].
  intros H; inversion H; subst; clear H.
  intros Hr. apply (f_equal String.length) in Hr.
  rewrite length_append in Hr.
  destruct (negb (slice_last s =? "/")); simpl in Hr; lia.
Qed.

Lemma validDirs_nonempty (cfg : config) (dirs : list string) :
  validDirs cfg = Ok dirs -> Forall (fun d => d <> "") dirs.
Proof.
  intros H. destruct (validDirs_order _ _ H) as (c & d & Hc & Hd & Hl).
  apply processDirPath_nonempty in Hc, Hd.
  destruct (OS cfg =? "ios").
  - destruct Hl as (l & Hl & ->). apply processDirPath_nonempty in Hl.
    repeat constructor; assumption.
  - subst. repeat constructor; assumption.
Qed.

Lemma rootDir_some_nonempty (cfg : config) (p : value) (root : string) :
  rootDir cfg p = Ok (Some root) -> root <> "".
Proof.
  unfold rootDir. destruct (normalizePath p) as [q|]; [|discriminate].
  simpl. destruct (validDirs cfg) as [dirs|] eqn:Hd; [|discriminate].
  simpl. intros H. inversion H as [Hf]. rewrite rootDir_loop_find in Hf.
  apply find_some in Hf as [Hin _].
  pose proof (validDirs_nonempty _ _ Hd) as Hne.
  rewrite Forall_forall in Hne. now apply Hne.
Qed.

Lemma rootDir_ok_caches (cfg : config) (p : value) (root : option string) :
  rootDir cfg p = Ok root ->
  exists caches, processDirPath cfg (NSCachesDirectoryPath cfg) = Ok caches.
Proof.
  unfold rootDir. destruct (normalizePath p) as [q|]; [|discriminate].
  simpl. destruct (validDirs cfg) as [dirs|] eqn:Hd; [|discriminate].
  intros _. destruct (validDirs_order _ _ Hd) as (c & _ & Hc & _). eauto.
Qed.

Section Guard.

Variable cfg : config.
Variable rn : native.

(** The three ways [_ensureValidRoot] runs. *)
Lemma ensureValidRoot_cases (p : value) (w : world) :
  match rootDir cfg p with
  | Throw e =>
      _ensureValidRoot cfg rn p w
      = (Rejected e, extend w [EnsureValidRoot p])
  | Ok None =>
      _ensureValidRoot cfg rn p w
      = (Rejected (Error_ (Some invalid_root_message)),
         extend w [EnsureValidRoot p; Native (N_mkdir VNull false)])
  | Ok (Some root) =>
      exists caches,
        processDirPath cfg (NSCachesDirectoryPath cfg) = Ok caches /\
        _ensureValidRoot cfg rn p w
        = (native_mkdir rn (trace w ++ [EnsureValidRoot p]) (VString root)
             (root =? caches),
           extend w [EnsureValidRoot p;
                     Native (N_mkdir (VString root) (root =? caches))])
  end.
Proof.
  unfold _ensureValidRoot, _mkdir, call_native, history, mbind, emit, ret, extend.
  destruct (rootDir cfg p) as [[root|]|e] eqn:Hr; cbn [jobId trace].
  - destruct (rootDir_ok_caches _ _ _ Hr) as [c Hc].
    exists c. split; [exact Hc|]. rewrite Hc.
    pose proof (rootDir_some_nonempty _ _ _ Hr) as Hne.
    apply String.eqb_neq in Hne. cbn [root_value truthy strict_eq_string].
    rewrite Hne. cbn [negb settle jobId trace]. rewrite <- app_assoc.
    destruct (native_mkdir rn _ _ _); reflexivity.
  - destruct (rootDir_ok_caches _ _ _ Hr) as [c Hc]. rewrite Hc.
    cbn [root_value truthy strict_eq_string negb settle jobId trace].
    now rewrite <- app_assoc.
  - reflexivity.
Qed.

(** What every run of the guard has in common. *)
Lemma ensureValidRoot_shape (p : value) (w : world) :
  exists s delta,
    _ensureValidRoot cfg rn p w = (s, extend w (EnsureValidRoot p :: delta)) /\
    guards delta = [] /\
    (s = Fulfilled tt -> exists c, delta = [Native c]).
Proof.
  pose proof (ensureValidRoot_cases p w) as H.
  destruct (rootDir cfg p) as [[root|]|e].
  - destruct H as (c & _ & H). rewrite H. do 2 eexists.
    split; [reflexivity|]. split; [reflexivity|]. eauto.
  - rewrite H. do 2 eexists. split; [reflexivity|]. split; [reflexivity|].
    discriminate.
  - rewrite H. do 2 eexists. split; [reflexivity|]. split; [reflexivity|].
    discriminate.
Qed.

End Guard.

End FacadeFacts.

Module RunFacts.
Import JsString Js Path Facade Observe JsStringFacts RootFacts FacadeFacts.

Lemma guards_app (a b : list event) :
  guards (a ++ b) = (guards a ++ guards b)%list.
Proof.
  induction a as [|e a IH]; [reflexivity|].
  destruct e; simpl; now rewrite ?IH.
Qed.

Lemma releases_app (h : nat) (a b : list event) :
  releases h (a ++ b) = releases h a + releases h b.
Proof.
  induction a as [|e a IH]; [reflexivity|].
  destruct e; simpl; rewrite ?IH; lia.
Qed.

(** The combinators that only look at how a promise settled leave the
    world alone. *)
Lemma snd_catch {A} (p : promise A) (h : error -> except A) (w : world) :
  snd (catch_ p h w) = snd (p w).
Proof. unfold catch_, mbind, ret. now destruct (p w). Qed.

Lemma snd_then_sync {A B} (p : promise A) (f : A -> except B) (w : world) :
  snd (then_sync p f w) = snd (p w).
Proof.
  unfold then_sync, then_, mbind, ret. destruct (p w) as [[a|e|] w']; reflexivity.
Qed.

Lemma snd_fmap {A B} (f : A -> B) (p : promise A) (w : world) :
  snd (fmap f p w) = snd (p w).
Proof. apply snd_then_sync. Qed.

Lemma snd_returned {A} (p : promise A) (w : world) :
  snd (returned p w) = snd (p w).
Proof. unfold returned, mbind, ret. now destruct (p w). Qed.

Lemma fst_returned {A} (p : promise A) (w : world) :
  fst (returned p w) = Returned (fst (p w)).
Proof. unfold returned, mbind, ret. now destruct (p w). Qed.

Lemma fst_fmap {A B} (f : A -> B) (p : promise A) (w : world) :
  fst (fmap f p w) = match fst (p w) with
                     | Fulfilled a => Fulfilled (f a)
                     | Rejected e => Rejected e
                     | Pending => Pending
                     end.
Proof.
  unfold fmap, then_sync, then_, mbind, ret.
  destruct (p w) as [[a|e|] w']; reflexivity.
Qed.

Lemma fst_catch_convertError {A} (p : promise A) (w : world) :
  fst (catch_ p convertError w)
  = match fst (p w) with
    | Rejected e =>
        Rejected match @convertError A e with
                 | Throw e' => e'
                 | Ok _ => e
                 end
    | s => s
    end.
Proof.
  unfold catch_, mbind, ret. destruct (p w) as [[a|e|] w']; reflexivity.
Qed.

Lemma call_native_eq {A} (c : native_call) (r : list event -> settled A)
    (w : world) :
  call_native c r w = (r (trace w), extend w [Native c]).
Proof. reflexivity. Qed.

(** An error made by [new Error(message)] goes through [convertError]
    unchanged. *)
Lemma convertError_Error_ {A} (m : string) :
  @convertError A (Error_ (Some m)) = Throw (Error_ (Some m)).
Proof.
  unfold convertError. cbn. unfold or_string. destruct (m =? ""); reflexivity.
Qed.

Section Combinators.

Variable cfg : config.
Variable rn : native.
Variable lib : codecs.

#[local] Abbreviation guard := (_ensureValidRoot cfg rn).

(** A guarded delegate: the delegate runs only if the guard is fulfilled. *)
Lemma then_guard {B} (p : value) (k : unit -> promise B) (w : world) :
  then_ (guard p) k w
  = match fst (guard p w) with
    | Fulfilled a => k a (snd (guard p w))
    | Rejected e => (Rejected e, snd (guard p w))
    | Pending => (Pending, snd (guard p w))
    end.
Proof.
  unfold then_, mbind, ret. destruct (guard p w) as [[a|e|] w']; reflexivity.
Qed.

End Combinators.


Section GuardOrder.

Variable cfg : config.
Variable rn : native.
Variable lib : codecs.

Lemma guard_world (p : value) (w : world) :
  exists d, snd (_ensureValidRoot cfg rn p w) = extend w (EnsureValidRoot p :: d)
            /\ guards d = []
            /\ (d = [] \/ exists x b, d = [Native (N_mkdir x b)]).
Proof.
  pose proof (ensureValidRoot_cases cfg rn p w) as H.
  destruct (rootDir cfg p) as [[root|]|e].
  - destruct H as (c & _ & H). rewrite H. eexists.
    split; [reflexivity|]. split; [reflexivity|]. right; eauto.
  - rewrite H. eexists. split; [reflexivity|]. split; [reflexivity|].
    right; eauto.
  - rewrite H. exists []. split; [reflexivity|]. split; [reflexivity|].
    now left.
Qed.

(** A guarded delegate that never enters the guard itself: the guard is
    entered once, with [p], before anything the delegate does. *)
Lemma guarded_trace {B} (p : value) (k : unit -> promise B) (w : world) :
  (forall a w1, exists tail,
      snd (k a w1) = extend w1 tail /\ guards tail = []) ->
  exists delta,
    trace (snd (then_ (_ensureValidRoot cfg rn p) k w))
    = (trace w ++ EnsureValidRoot p :: delta)%list /\
    guards delta = [].
Proof.
  intros Hk. rewrite then_guard.
  destruct (guard_world p w) as (d & Hw & Hd & _).
  destruct (fst (_ensureValidRoot cfg rn p w)) as [a|e|].
  - destruct (Hk a (snd (_ensureValidRoot cfg rn p w))) as (tail & Ht & Hg).
    rewrite Ht, Hw, extend_extend.
    eexists. split; [reflexivity|]. now rewrite guards_app, Hd, Hg.
  - cbn [snd]. rewrite Hw. eexists. split; [reflexivity|]. exact Hd.
  - cbn [snd]. rewrite Hw. eexists. split; [reflexivity|]. exact Hd.
Qed.

Lemma native_tail {A} (c : native_call) (r : list event -> settled A)
    (w1 : world) :
  exists tail,
    snd (call_native c r w1) = extend w1 tail /\ guards tail = [].
Proof. rewrite call_native_eq. eexists. split; reflexivity. Qed.

Lemma readDir_trace (p : value) (w : world) :
  exists delta,
    trace (snd (readDir cfg rn p w))
    = (trace w ++ EnsureValidRoot p :: delta)%list /\
    guards delta = [].
Proof.
  unfold readDir. rewrite snd_catch. apply guarded_trace.
  intros a w1. rewrite snd_catch, snd_then_sync. apply native_tail.
Qed.

(** [downloadFile] up to the guard: the counter is advanced, the listeners
    are registered, and the promise is built on what the variables hold. *)
Lemma downloadFile_eq (u f b pr : value) (w : world) :
  let j := add1 (jobId w) in
  let n := List.length (trace w) in
  downloadFile cfg rn u f b pr w
  = then_ (_ensureValidRoot cfg rn f) (fun _ =>
      catch_
        (then_ (_downloadFile rn u f j) (fun res =>
           _ <~ remove_if (held_ios cfg pr n) ;;
           _ <~ remove_if (held_android cfg pr n) ;;
           ret (Fulfilled res)))
        convertError)
      {| jobId := j;
         trace := (trace w ++ begin_listeners cfg j b n
                   ++ progress_listeners cfg j pr (n + emitters cfg))%list |}.
Proof.
  intros j n.
  unfold downloadFile, getJobId, subscribe_if, addListener, history, emit,
    mbind, ret, begin_listeners, progress_listeners, listeners_for,
    held_ios, held_android, emitters, begin_callback, begin_channel,
    progress_channel.
  fold j.
  destruct (truthy b) eqn:Eb; cbn [negb]; rewrite ?Eb;
    destruct (NativeAppEventEmitter_addListener cfg);
    destruct (DeviceEventEmitter_addListener cfg);
    destruct (truthy pr);
    cbn [jobId trace count app];
    rewrite ?length_app; cbn [List.length];
    rewrite <- ?app_assoc; cbn [app];
    rewrite ?app_nil_r, ?Nat.add_0_r, <- ?Nat.add_assoc; cbn [Nat.add];
    fold n; reflexivity.
Qed.

Lemma remove_if_eq (v : option nat) (w1 : world) :
  remove_if v w1 = (tt, extend w1 (removal v)).
Proof.
  destruct v; cbn; unfold extend; [reflexivity|].
  rewrite app_nil_r. now destruct w1.
Qed.

(** The delegate of [downloadFile]: the subscriptions held are removed
    when the native call is fulfilled, and only then. *)
Lemma download_delegate (u f pr : value) (j : Z) (n : nat) (w1 : world) :
  catch_
    (then_ (_downloadFile rn u f j) (fun res =>
       _ <~ remove_if (held_ios cfg pr n) ;;
       _ <~ remove_if (held_android cfg pr n) ;;
       ret (Fulfilled res)))
    convertError w1
  = match native_downloadFile rn (trace w1) u f j with
    | Fulfilled res =>
        (Fulfilled res,
         extend w1 (Native (N_downloadFile u f j) :: removals cfg pr n))
    | Rejected e =>
        (Rejected (converted e), extend w1 [Native (N_downloadFile u f j)])
    | Pending => (Pending, extend w1 [Native (N_downloadFile u f j)])
    end.
Proof.
  unfold catch_, then_, _downloadFile, mbind. rewrite call_native_eq.
  destruct (native_downloadFile rn (trace w1) u f j) as [res|e|].
  - rewrite !remove_if_eq. unfold ret, removals.
    now rewrite !extend_extend.
  - reflexivity.
  - reflexivity.
Qed.

Lemma guards_listeners_for (ch : string) (cb : callback) (n : nat) :
  guards (listeners_for cfg ch cb n) = [].
Proof.
  unfold listeners_for.
  destruct (NativeAppEventEmitter_addListener cfg);
    destruct (DeviceEventEmitter_addListener cfg); reflexivity.
Qed.

Lemma listeners_for_listeners (ch : string) (cb : callback) (n : nat) :
  forallb is_listener (listeners_for cfg ch cb n) = true.
Proof.
  unfold listeners_for.
  destruct (NativeAppEventEmitter_addListener cfg);
    destruct (DeviceEventEmitter_addListener cfg); reflexivity.
Qed.

Lemma registered_listeners (j : Z) (b pr : value) (n m : nat) :
  let l := (begin_listeners cfg j b n ++ progress_listeners cfg j pr m)%list in
  forallb is_listener l = true /\ guards l = [].
Proof.
  unfold begin_listeners, progress_listeners. cbn zeta.
  rewrite forallb_app, guards_app, guards_listeners_for,
    listeners_for_listeners.
  destruct (truthy pr);
    [rewrite guards_listeners_for, listeners_for_listeners|]; now split.
Qed.

Lemma guard_first_after_listeners (l r : list event) (p : value) :
  forallb is_listener l = true ->
  guard_first (l ++ EnsureValidRoot p :: r) = true.
Proof.
  induction l as [|e l IH]; intros H; [reflexivity|].
  cbn [forallb] in H. apply andb_true_iff in H as [He Hl].
  destruct e; try discriminate. cbn. now apply IH.
Qed.

Lemma guards_removals (pr : value) (n : nat) : guards (removals cfg pr n) = [].
Proof.
  unfold removals, held_ios, held_android.
  destruct (NativeAppEventEmitter_addListener cfg);
    destruct (DeviceEventEmitter_addListener cfg); reflexivity.
Qed.

Ltac one_guard :=
  match goal with
  | |- exists delta, trace (snd (then_ _ _ ?w)) = _ /\ _ =>
      let d := fresh "d" in
      let Ht := fresh "Ht" in
      let Hg := fresh "Hg" in
      let H := fresh "H" in
      match goal with
      | |- exists delta, trace (snd (then_ (_ ?c ?r ?p) ?k w)) = _ /\ _ =>
          assert (H : exists delta,
                     trace (snd (then_ (_ensureValidRoot c r p) k w))
                     = (trace w ++ EnsureValidRoot p :: delta)%list /\
                     guards delta = [])
            by (apply guarded_trace; intros ? ?;
                rewrite ?snd_catch, ?snd_then_sync; apply native_tail);
          destruct H as (d & Ht & Hg);
          exists (EnsureValidRoot p :: d);
          split; [exact Ht|];
          cbn [guards guard_first List.length]; rewrite Hg;
          repeat split; repeat constructor
      end
  end.

(** C5, as the code has it: a call that does not throw enters the guard
    with its original target path before any call on the native module,
    and enters it with no other path; it enters it once, except [readdir],
    which enters it a second time, through [readDir], when the first entry
    is fulfilled. *)
Theorem guard_entered_first_on_target (c : call) (w : world) :
  exists delta,
    trace (snd (run cfg rn lib c w)) = (trace w ++ delta)%list /\
    Forall (fun p => p = target c) (guards delta) /\
    guard_first delta = true /\
    List.length (guards delta) = guard_entries cfg rn lib c w.
Proof.
  unfold guard_entries.
  destruct c; cbn [run target];
    rewrite ?fst_returned, ?snd_returned, ?snd_fmap.
  - (* readDir *)
    destruct (readDir_trace dirpath w) as (d & Ht & Hg).
    exists (EnsureValidRoot dirpath :: d). split; [exact Ht|].
    cbn [guards guard_first List.length]. rewrite Hg.
    repeat split; repeat constructor.
  - (* readdir *)
    unfold readdir. rewrite then_guard.
    destruct (guard_world dirpath w) as (d & Hw & Hd & _).
    destruct (fst (_ensureValidRoot cfg rn dirpath w)) as [a|e|];
      cbn [fulfilled snd].
    + rewrite snd_then_sync.
      destruct (readDir_trace dirpath (snd (_ensureValidRoot cfg rn dirpath w)))
        as (d' & Ht & Hg).
      rewrite Ht, Hw. cbn [extend trace]. rewrite <- app_assoc.
      eexists. split; [reflexivity|].
      cbn [app guards guard_first].
      rewrite guards_app, Hd. cbn [app guards]. rewrite Hg.
      repeat split; repeat constructor.
    + rewrite Hw. eexists. split; [reflexivity|].
      cbn [guards guard_first]. rewrite Hd. repeat split; repeat constructor.
    + rewrite Hw. eexists. split; [reflexivity|].
      cbn [guards guard_first]. rewrite Hd. repeat split; repeat constructor.
  - unfold stat. one_guard.
  - unfold exists_, _exists. one_guard.
  - unfold readFile. one_guard.
  - (* writeFile *)
    unfold writeFile, mbind.
    match goal with
    | |- context [match ?b with Ok _ => _ | Throw _ => _ end] =>
        destruct b as [b64|e]
    end.
    + unfold returned, mbind, ret.
      match goal with
      | |- context [then_ ?g ?k w] =>
          destruct (guarded_trace filepath k w) as (d & Ht & Hg);
            [intros ? ?; rewrite ?snd_catch; apply native_tail|];
            destruct (then_ g k w) as [[[]|e|] w'] eqn:E;
            cbn [fst snd] in *;
            exists (EnsureValidRoot filepath :: d);
            (split; [exact Ht|]);
            cbn [guards guard_first List.length]; rewrite Hg;
            repeat split; repeat constructor
      end.
    + unfold ret. cbn [fst snd]. exists []. rewrite app_nil_r.
      repeat split; constructor.
  - unfold moveFile, _moveFile. one_guard.
  - unfold unlink, _unlink. one_guard.
  - unfold mkdir, _mkdir. one_guard.
  - (* downloadFile *)
    rewrite downloadFile_eq.
    match goal with
    | |- context [then_ ?g ?k ?w2] =>
        destruct (guarded_trace toFile k w2) as (d & Ht & Hg)
    end.
    { intros a w1. rewrite download_delegate.
      destruct (native_downloadFile rn (trace w1) fromUrl toFile _);
        eexists; (split; [reflexivity|]); cbn [guards];
        rewrite ?guards_removals; reflexivity. }
    cbn [trace] in Ht. rewrite <- !app_assoc in Ht.
    eexists. split; [exact Ht|].
    destruct (registered_listeners (add1 (jobId w)) begin progress
                (List.length (trace w))
                (List.length (trace w) + emitters cfg)) as [Hl Hn].
    cbn zeta in Hl, Hn.
    rewrite app_assoc, guards_app, Hn. cbn [app guards]. rewrite Hg.
    split; [repeat constructor|]. split; [|reflexivity].
    now apply guard_first_after_listeners.
Qed.

End GuardOrder.

Section Operations.

Variable cfg : config.
Variable rn : native.
Variable lib : codecs.

(** With no owning root the guard rejects, and the delegate is skipped;
    the native [mkdir] has been called all the same, on null. *)
Lemma guarded_invalid {B} (p : value) (k : unit -> promise B) (w : world) :
  rootDir cfg p = Ok None ->
  then_ (_ensureValidRoot cfg rn p) k w
  = (Rejected (Error_ (Some invalid_root_message)),
     extend w [EnsureValidRoot p; Native (N_mkdir VNull false)]).
Proof.
  intros Hr. rewrite then_guard.
  pose proof (ensureValidRoot_cases cfg rn p w) as H. rewrite Hr in H.
  now rewrite H.
Qed.

Ltac invalid_root Hr :=
  right; rewrite (guarded_invalid _ _ _ Hr);
  cbn [fst snd]; split; [reflexivity|];
  exists []; split; reflexivity.

(** C1, what the code does: when no root owns the target path, a call that
    does not throw is rejected with the invalid-root error, but only after
    [_ensureValidRoot] has gone on to call the native [mkdir], with null
    as the directory. *)
Theorem invalid_root_rejected_after_mkdir (c : call) (w : world) :
  rootDir cfg (target c) = Ok None ->
  (exists e, run cfg rn lib c w = (Threw e, w)) \/
  (fst (run cfg rn lib c w)
   = Returned (Rejected (Error_ (Some invalid_root_message))) /\
   exists pre,
     forallb is_listener pre = true /\
     trace (snd (run cfg rn lib c w))
     = (trace w ++ pre ++ [EnsureValidRoot (target c);
                           Native (N_mkdir VNull false)])%list).
Proof.
  intros Hr.
  destruct c; cbn [run target] in *;
    rewrite ?fst_returned, ?snd_returned, ?snd_fmap, ?fst_fmap.
  - unfold readDir. rewrite fst_catch_convertError, snd_catch.
    rewrite (guarded_invalid _ _ _ Hr). cbn [fst snd].
    rewrite convertError_Error_.
    right. split; [reflexivity|]. exists []. split; reflexivity.
  - unfold readdir. invalid_root Hr.
  - unfold stat. invalid_root Hr.
  - unfold exists_. invalid_root Hr.
  - unfold readFile. invalid_root Hr.
  - unfold writeFile, mbind.
    match goal with
    | |- context [match ?b with Ok _ => _ | Throw _ => _ end] =>
        destruct b as [b64|e]
    end.
    + unfold returned, mbind, ret. rewrite (guarded_invalid _ _ _ Hr).
      right. cbn [fst snd]. split; [reflexivity|].
      exists []. split; reflexivity.
    + left. exists e. reflexivity.
  - unfold moveFile. invalid_root Hr.
  - unfold unlink. invalid_root Hr.
  - unfold mkdir. invalid_root Hr.
  - rewrite downloadFile_eq, (guarded_invalid _ _ _ Hr). cbn [fst snd].
    right. split; [reflexivity|].
    exists (begin_listeners cfg (add1 (jobId w)) begin (List.length (trace w))
            ++ progress_listeners cfg (add1 (jobId w)) progress
                 (List.length (trace w) + emitters cfg))%list.
    split; [apply (registered_listeners cfg)|].
    cbn [extend trace]. now rewrite <- !app_assoc.
Qed.

(** C3, what the code does: with an encoding that is given but not
    supported, [writeFile] throws before anything else happens, while
    [readFile] on a path under a root first has the root created and, if
    that succeeds, the file read by the native module; the encoding is only
    looked at when the read is fulfilled. *)
Theorem unsupported_encoding_checked_after_read (p enc : value) (w : world) :
  truthy enc = true -> supported_encoding enc = false ->
  (forall contents options,
      writeFile cfg rn lib p contents enc options w
      = (Threw (invalid_encoding enc), w)) /\
  (forall root, rootDir cfg p = Ok (Some root) ->
     exists excl,
       let w1 := extend w [EnsureValidRoot p;
                           Native (N_mkdir (VString root) excl)] in
       readFile cfg rn lib p enc w
       = match native_mkdir rn (trace w ++ [EnsureValidRoot p])
                 (VString root) excl with
         | Fulfilled _ =>
             (match native_readFile rn (trace w1) p with
              | Fulfilled _ => Rejected (invalid_encoding enc)
              | Rejected e => Rejected (converted e)
              | Pending => Pending
              end,
              extend w1 [Native (N_readFile p)])
         | Rejected e => (Rejected e, w1)
         | Pending => (Pending, w1)
         end).
Proof.
  intros Ht Hs. unfold supported_encoding in Hs.
  apply orb_false_iff in Hs as [Hs H3]. apply orb_false_iff in Hs as [H1 H2].
  assert (Hd : default_encoding enc = enc)
    by (unfold default_encoding; now rewrite Ht).
  split.
  - intros contents options. unfold writeFile. rewrite Hd, H1, H2, H3.
    reflexivity.
  - intros root Hr. unfold readFile. rewrite Hd, then_guard.
    pose proof (ensureValidRoot_cases cfg rn p w) as H. rewrite Hr in H.
    destruct H as (c & _ & H). exists (root =? c). cbn zeta.
    rewrite H. cbn [fst snd].
    destruct (native_mkdir rn _ _ _) as [[]|e|]; try reflexivity.
    unfold catch_, then_sync, then_, _readFile, mbind, ret.
    rewrite call_native_eq, H1, H2, H3.
    destruct (native_readFile rn _ p) as [b64|e|]; reflexivity.
Qed.

(** The whole run of [downloadFile]. *)
Lemma downloadFile_run (u f b pr : value) (w : world) :
  let j := add1 (jobId w) in
  let n := List.length (trace w) in
  let w2 := {| jobId := j;
               trace := (trace w ++ begin_listeners cfg j b n
                         ++ progress_listeners cfg j pr (n + emitters cfg))%list |} in
  exists d,
    (d = [] \/ exists x e, d = [Native (N_mkdir x e)]) /\
    downloadFile cfg rn u f b pr w
    = match fst (_ensureValidRoot cfg rn f w2) with
      | Fulfilled _ =>
          match native_downloadFile rn (trace w2 ++ EnsureValidRoot f :: d)
                  u f j with
          | Fulfilled res =>
              (Fulfilled res,
               extend w2 (EnsureValidRoot f :: d
                          ++ Native (N_downloadFile u f j)
                          :: removals cfg pr n))
          | Rejected e =>
              (Rejected (converted e),
               extend w2 (EnsureValidRoot f :: d
                          ++ [Native (N_downloadFile u f j)]))
          | Pending =>
              (Pending,
               extend w2 (EnsureValidRoot f :: d
                          ++ [Native (N_downloadFile u f j)]))
          end
      | Rejected e => (Rejected e, extend w2 (EnsureValidRoot f :: d))
      | Pending => (Pending, extend w2 (EnsureValidRoot f :: d))
      end.
Proof.
  intros j n w2. rewrite downloadFile_eq. fold j n w2. rewrite then_guard.
  destruct (guard_world cfg rn f w2) as (d & Hw & _ & Hd).
  exists d. split; [exact Hd|]. rewrite Hw.
  destruct (fst (_ensureValidRoot cfg rn f w2)) as [a|e|]; try reflexivity.
  rewrite download_delegate. cbn [extend trace].
  destruct (native_downloadFile rn _ u f j); rewrite extend_extend;
    reflexivity.
Qed.

Lemma channels_differ (j : Z) :
  (progress_channel j =? begin_channel j) = false.
Proof. reflexivity. Qed.

Lemma subscriptions_app (ch : string) (a b : list event) :
  subscriptions ch (a ++ b) = (subscriptions ch a ++ subscriptions ch b)%list.
Proof.
  induction a as [|e a IH]; [reflexivity|].
  destruct e; cbn [app subscriptions]; try exact IH.
  destruct (channel =? ch); cbn [app]; now rewrite IH.
Qed.

Lemma releases_listeners (h : nat) (l : list event) :
  forallb is_listener l = true -> releases h l = 0.
Proof.
  induction l as [|e l IH]; intros H; [reflexivity|].
  cbn [forallb] in H. apply andb_true_iff in H as [He Hl].
  destruct e; try discriminate. cbn. now apply IH.
Qed.

Lemma subscriptions_removals (ch : string) (pr : value) (n : nat) :
  subscriptions ch (removals cfg pr n) = [].
Proof.
  unfold removals, held_ios, held_android.
  destruct (NativeAppEventEmitter_addListener cfg);
    destruct (DeviceEventEmitter_addListener cfg); reflexivity.
Qed.

Lemma releases_removals_le (h : nat) (pr : value) (n : nat) :
  releases h (removals cfg pr n) <= 1.
Proof.
  unfold removals, held_ios, held_android, emitters.
  destruct (NativeAppEventEmitter_addListener cfg);
    destruct (DeviceEventEmitter_addListener cfg);
    cbn [removal app releases count];
    repeat match goal with
           | |- context [Nat.eqb ?a ?b] => destruct (Nat.eqb_spec a b)
           end; lia.
Qed.

(** With a progress callback, what is removed is never a subscription to
    the begin event. *)
Lemma releases_begin_overwritten (h : nat) (j : Z) (b pr : value) (n : nat) :
  truthy pr = true ->
  In h (subscriptions (begin_channel j) (begin_listeners cfg j b n)) ->
  releases h (removals cfg pr n) = 0.
Proof.
  intros Hp. unfold begin_listeners, listeners_for, removals, held_ios,
    held_android, emitters. rewrite Hp.
  destruct (NativeAppEventEmitter_addListener cfg);
    destruct (DeviceEventEmitter_addListener cfg);
    cbn [app subscriptions removal releases count];
    rewrite ?String.eqb_refl; cbn [In]; intros Hin;
    repeat match goal with
           | |- context [Nat.eqb ?a ?b] => destruct (Nat.eqb_spec a b)
           end; lia.
Qed.

Lemma subscriptions_registered (j : Z) (b pr : value) (n m : nat) :
  subscriptions (begin_channel j)
    (begin_listeners cfg j b n ++ progress_listeners cfg j pr m)
  = subscriptions (begin_channel j) (begin_listeners cfg j b n).
Proof.
  rewrite subscriptions_app.
  replace (subscriptions (begin_channel j) (progress_listeners cfg j pr m))
    with (@nil nat); [now rewrite app_nil_r|].
  unfold progress_listeners, listeners_for.
  destruct (truthy pr); [|reflexivity].
  destruct (NativeAppEventEmitter_addListener cfg);
    destruct (DeviceEventEmitter_addListener cfg);
    cbn [app subscriptions]; rewrite ?channels_differ; reflexivity.
Qed.

(** C2, what the code does: subscriptions are removed only when the native
    download is fulfilled, never when the promise is rejected, and a
    subscription to the begin event is never removed once a progress
    callback has been given, its variable then holding the progress
    subscription; no subscription is removed twice. *)
Theorem downloadFile_release_gaps (u f b pr : value) (w : world) :
  exists delta,
    trace (snd (downloadFile cfg rn u f b pr w)) = (trace w ++ delta)%list /\
    (forall h, releases h delta <= 1) /\
    ((exists e, fst (downloadFile cfg rn u f b pr w) = Rejected e) ->
     forall h, releases h delta = 0) /\
    (truthy pr = true ->
     forall h,
       In h (subscriptions (begin_channel (add1 (jobId w))) delta) ->
       releases h delta = 0).
Proof.
  destruct (downloadFile_run u f b pr w) as (d & Hd & Heq).
  cbn zeta in Heq. set (j := add1 (jobId w)) in *.
  set (n := List.length (trace w)) in *.
  set (L := (begin_listeners cfg j b n
             ++ progress_listeners cfg j pr (n + emitters cfg))%list) in *.
  destruct (registered_listeners cfg j b pr n (n + emitters cfg)) as [HL _].
  fold L in HL.
  assert (Hshape : exists tail,
             trace (snd (downloadFile cfg rn u f b pr w))
             = (trace w ++ L ++ EnsureValidRoot f :: d ++ tail)%list /\
             (tail = [] \/ tail = [Native (N_downloadFile u f j)] \/
              (tail = Native (N_downloadFile u f j) :: removals cfg pr n /\
               exists res, fst (downloadFile cfg rn u f b pr w)
                           = Fulfilled res))).
  { rewrite Heq.
    destruct (fst (_ensureValidRoot cfg rn f _)) as [a|e|].
    - destruct (native_downloadFile rn _ u f j) as [res|e|];
        cbn [fst snd extend trace]; rewrite <- app_assoc;
        eexists; (split; [reflexivity|]); eauto.
    - exists []. cbn [snd extend trace]. rewrite <- app_assoc, app_nil_r.
      split; [reflexivity | now left].
    - exists []. cbn [snd extend trace]. rewrite <- app_assoc, app_nil_r.
      split; [reflexivity | now left]. }
  destruct Hshape as (tail & Htrace & Htail).
  exists (L ++ EnsureValidRoot f :: d ++ tail)%list.
  split; [exact Htrace|].
  assert (Hrel : forall h,
             releases h (L ++ EnsureValidRoot f :: d ++ tail)
             = releases h tail).
  { intros h. rewrite releases_app, (releases_listeners h L HL).
    cbn [releases]. rewrite releases_app.
    destruct Hd as [-> | (x & e & ->)]; reflexivity. }
  assert (Hsub : subscriptions (begin_channel j)
                   (L ++ EnsureValidRoot f :: d ++ tail)
                 = subscriptions (begin_channel j)
                     (begin_listeners cfg j b n)).
  { rewrite subscriptions_app. cbn [subscriptions].
    rewrite subscriptions_app.
    replace (subscriptions (begin_channel j) d) with (@nil nat)
      by (destruct Hd as [-> | (x & e & ->)]; reflexivity).
    replace (subscriptions (begin_channel j) tail) with (@nil nat)
      by (destruct Htail as [-> | [-> | [-> _]]];
          cbn [subscriptions]; rewrite ?subscriptions_removals; reflexivity).
    rewrite !app_nil_r. apply subscriptions_registered. }
  split; [|split].
  - intros h. rewrite Hrel.
    destruct Htail as [-> | [-> | [-> _]]]; cbn [releases]; try lia.
    apply releases_removals_le.
  - intros [e He] h. rewrite Hrel.
    destruct Htail as [-> | [-> | [-> [res Hres]]]]; try reflexivity.
    congruence.
  - intros Hp h Hin. rewrite Hrel. rewrite Hsub in Hin.
    destruct Htail as [-> | [-> | [-> _]]]; try reflexivity.
    cbn [releases]. now apply (releases_begin_overwritten h j b).
Qed.

(** C4, as the code has it: the default listener only logs, and it is
    registered like a listener of the caller's: on each emitter that has an
    [addListener], on the begin channel of the job, a subscription being
    taken each time. *)
Theorem default_begin_is_subscribed (u f b pr : value) (w : world) :
  truthy b = false ->
  let j := add1 (jobId w) in
  let n := List.length (trace w) in
  (exists rest,
      trace (snd (downloadFile cfg rn u f b pr w))
      = (trace w ++ listeners_for cfg (begin_channel j) DefaultBegin n
         ++ rest)%list) /\
  subscriptions (begin_channel j)
    (listeners_for cfg (begin_channel j) DefaultBegin n)
  = firstn (emitters cfg) [n; n + 1] /\
  (forall b', truthy b' = true ->
     exists rest,
       trace (snd (downloadFile cfg rn u f b' pr w))
       = (trace w ++ listeners_for cfg (begin_channel j) (UserCallback b') n
          ++ rest)%list) /\
  (forall info w0,
      invoke_default_begin info w0
      = (tt, extend w0 [ConsoleLog "Download begun:" info])).
Proof.
  intros Hb j n.
  assert (Htrace : forall b0, exists rest,
             trace (snd (downloadFile cfg rn u f b0 pr w))
             = (trace w ++ listeners_for cfg (begin_channel j)
                             (begin_callback b0) n ++ rest)%list).
  { intros b0. destruct (downloadFile_run u f b0 pr w) as (d & _ & Heq).
    cbn zeta in Heq. fold j n in Heq. rewrite Heq.
    unfold begin_listeners.
    destruct (fst (_ensureValidRoot cfg rn f _)) as [a|e|];
      [destruct (native_downloadFile rn _ u f j) as [res|e|]| |];
      cbn [snd extend trace]; rewrite <- !app_assoc;
      eexists; reflexivity. }
  split; [|split; [|split]].
  - destruct (Htrace b) as [rest H]. exists rest. rewrite H.
    unfold begin_callback. now rewrite Hb.
  - unfold listeners_for, emitters.
    destruct (NativeAppEventEmitter_addListener cfg);
      destruct (DeviceEventEmitter_addListener cfg);
      cbn [app subscriptions count]; rewrite ?String.eqb_refl;
      rewrite ?Nat.add_0_r; reflexivity.
  - intros b' Hb'. destruct (Htrace b') as [rest H]. exists rest. rewrite H.
    unfold begin_callback. now rewrite Hb'.
  - reflexivity.
Qed.

End Operations.

(** *** The counter belongs to [getJobId] *)

Create HintDb counter.

Lemma keeps_ret {A} (a : A) : keeps_counter (ret a).
Proof. intros w. reflexivity. Qed.

Lemma keeps_emit (e : event) : keeps_counter (emit e).
Proof. intros w. reflexivity. Qed.

Lemma keeps_history : keeps_counter history.
Proof. intros w. reflexivity. Qed.

Lemma keeps_mbind {A B} (m : M A) (k : A -> M B) :
  keeps_counter m -> (forall a, keeps_counter (k a)) ->
  keeps_counter (mbind m k).
Proof.
  intros Hm Hk w. unfold mbind. specialize (Hm w).
  destruct (m w) as [a w']. cbn [snd] in Hm. now rewrite Hk.
Qed.

Lemma keeps_settled {A B} (s : settled A) (k : A -> promise B) :
  (forall a, keeps_counter (k a)) ->
  keeps_counter match s with
                | Fulfilled a => k a
                | Rejected e => ret (Rejected e)
                | Pending => ret Pending
                end.
Proof. intros Hk. destruct s; [apply Hk | apply keeps_ret | apply keeps_ret]. Qed.

Lemma keeps_then {A B} (p : promise A) (k : A -> promise B) :
  keeps_counter p -> (forall a, keeps_counter (k a)) ->
  keeps_counter (then_ p k).
Proof.
  intros Hp Hk. apply keeps_mbind; [exact Hp|].
  intros s. now apply keeps_settled.
Qed.

Lemma keeps_then_sync {A B} (p : promise A) (f : A -> except B) :
  keeps_counter p -> keeps_counter (then_sync p f).
Proof. intros Hp. apply keeps_then; [exact Hp|]. intros a. apply keeps_ret. Qed.

Lemma keeps_catch {A} (p : promise A) (h : error -> except A) :
  keeps_counter p -> keeps_counter (catch_ p h).
Proof. intros Hp. apply keeps_mbind; [exact Hp|]. intros s. apply keeps_ret. Qed.

Lemma keeps_call_native {A} (c : native_call) (r : list event -> settled A) :
  keeps_counter (call_native c r).
Proof. intros w. reflexivity. Qed.

Lemma keeps_guard (cfg : config) (rn : native) (p : value) :
  keeps_counter (_ensureValidRoot cfg rn p).
Proof.
  intros w. destruct (guard_world cfg rn p w) as (d & Hw & _).
  now rewrite Hw.
Qed.

Lemma keeps_returned {A} (p : promise A) :
  keeps_counter p -> keeps_counter (returned p).
Proof. intros Hp. apply keeps_mbind; [exact Hp|]. intros s. apply keeps_ret. Qed.

#[local] Hint Resolve keeps_ret keeps_emit keeps_history keeps_mbind
  keeps_then keeps_then_sync keeps_catch keeps_call_native keeps_guard
  keeps_returned : counter.

(** Only [downloadFile] moves the counter, by its one call of [getJobId];
    the identifier it gets is the one it hands to the native download. *)
Lemma counter_after_run (cfg : config) (rn : native) (lib : codecs)
    (c : call) (w : world) :
  jobId (snd (run cfg rn lib c w))
  = match c with
    | Call_downloadFile _ _ _ _ => fst (getJobId w)
    | _ => jobId w
    end.
Proof.
  destruct c; cbn [run];
    try solve [apply keeps_returned;
               unfold fmap, readdir, readDir, stat, exists_, readFile,
                 moveFile, unlink, mkdir, _readDir, _stat, _exists,
                 _readFile, _moveFile, _unlink, _mkdir;
               auto 10 with counter].
  - unfold writeFile, mbind. cbv zeta.
    match goal with
    | |- context [match ?b with Ok _ => _ | Throw _ => _ end] =>
        destruct b as [b64|e]
    end; [|reflexivity].
    match goal with
    | |- context [returned ?p w] =>
        assert (H : keeps_counter (returned p))
          by (unfold _writeFile; auto 10 with counter);
          specialize (H w); destruct (returned p w) as [o w']
    end.
    exact H.
  - rewrite snd_returned, snd_fmap.
    destruct (downloadFile_run cfg rn fromUrl toFile begin progress w)
      as (d & _ & Heq).
    cbn zeta in Heq. rewrite Heq.
    destruct (fst (_ensureValidRoot cfg rn toFile _)) as [a|e|];
      [destruct (native_downloadFile rn _ fromUrl toFile _)| |]; reflexivity.
Qed.

End RunFacts.

(* ------------------------------------------------------------------ *)
(** ** Runs on the sample configuration *)
(* ------------------------------------------------------------------ *)

Module Examples.
Import JsString Js Path Facade Observe Spec Segments Sample.
Import NormalizeTheory RootFacts RunFacts.

(** C1, on a path outside every root: [stat] is rejected with the
    invalid-root error and the native [mkdir] has been called on null. *)
Lemma invalid_root_rejected_after_mkdir_witness :
  rootDir Sample.cfg (target (Call_stat (VString "/tmp/x"))) = Ok None /\
  run Sample.cfg Sample.rn Sample.lib (Call_stat (VString "/tmp/x")) initial
  = (Returned (Rejected (Error_ (Some invalid_root_message))),
     {| jobId := 0;
        trace := [EnsureValidRoot (VString "/tmp/x");
                  Native (N_mkdir VNull false)] |}) /\
  ((exists e,
       run Sample.cfg Sample.rn Sample.lib (Call_stat (VString "/tmp/x"))
         initial = (Threw e, initial)) \/
   (fst (run Sample.cfg Sample.rn Sample.lib (Call_stat (VString "/tmp/x"))
           initial)
    = Returned (Rejected (Error_ (Some invalid_root_message))) /\
    exists pre,
      forallb is_listener pre = true /\
      trace (snd (run Sample.cfg Sample.rn Sample.lib
                    (Call_stat (VString "/tmp/x")) initial))
      = (trace initial ++ pre ++ [EnsureValidRoot (VString "/tmp/x");
                                  Native (N_mkdir VNull false)])%list)).
Proof.
  split; [reflexivity|]. split; [reflexivity|].
  apply (invalid_root_rejected_after_mkdir Sample.cfg Sample.rn Sample.lib
           (Call_stat (VString "/tmp/x")) initial).
  reflexivity.
Defined.

(** C2, on a download with both callbacks: when it succeeds only the
    progress subscription (1) is removed, the begin subscription (0) is
    left; when it fails nothing is removed. *)
Lemma downloadFile_release_gaps_witness :
  trace (snd (downloadFile Sample.cfg Sample.rn url download_target
                (VFunction "onBegin") (VFunction "onProgress") initial))
  = [AddListener NativeAppEventEmitter "DownloadBegin-1"
       (UserCallback (VFunction "onBegin")) 0;
     AddListener NativeAppEventEmitter "DownloadProgress-1"
       (UserCallback (VFunction "onProgress")) 1;
     EnsureValidRoot download_target;
     Native (N_mkdir (VString "/data/files/siphon-data-app") false);
     Native (N_downloadFile url download_target 1);
     Remove 1] /\
  (exists e,
      fst (downloadFile Sample.cfg Sample.rn_failing url download_target
             (VFunction "onBegin") (VFunction "onProgress") initial)
      = Rejected e) /\
  trace (snd (downloadFile Sample.cfg Sample.rn_failing url download_target
                (VFunction "onBegin") (VFunction "onProgress") initial))
  = [AddListener NativeAppEventEmitter "DownloadBegin-1"
       (UserCallback (VFunction "onBegin")) 0;
     AddListener NativeAppEventEmitter "DownloadProgress-1"
       (UserCallback (VFunction "onProgress")) 1;
     EnsureValidRoot download_target;
     Native (N_mkdir (VString "/data/files/siphon-data-app") false);
     Native (N_downloadFile url download_target 1)] /\
  exists delta,
    trace (snd (downloadFile Sample.cfg Sample.rn_failing url download_target
                  (VFunction "onBegin") (VFunction "onProgress") initial))
    = (trace initial ++ delta)%list /\
    (forall h, releases h delta <= 1) /\
    ((exists e,
         fst (downloadFile Sample.cfg Sample.rn_failing url download_target
                (VFunction "onBegin") (VFunction "onProgress") initial)
         = Rejected e) ->
     forall h, releases h delta = 0) /\
    (truthy (VFunction "onProgress") = true ->
     forall h,
       In h (subscriptions (begin_channel (add1 (jobId initial))) delta) ->
       releases h delta = 0).
Proof.
  split; [reflexivity|]. split; [eexists; reflexivity|].
  split; [reflexivity|].
  apply (downloadFile_release_gaps Sample.cfg Sample.rn_failing url
           download_target (VFunction "onBegin") (VFunction "onProgress")
           initial).
Defined.

(** C3, on the encoding ["utf16"]: [readFile] has the root created and the
    file read before it rejects; [writeFile] throws at once. *)
Lemma unsupported_encoding_checked_after_read_witness :
  truthy (VString "utf16") = true /\
  supported_encoding (VString "utf16") = false /\
  rootDir Sample.cfg cache_file = Ok (Some "/data/cache/siphon-data-app") /\
  readFile Sample.cfg Sample.rn Sample.lib cache_file (VString "utf16") initial
  = (Rejected (invalid_encoding (VString "utf16")),
     {| jobId := 0;
        trace := [EnsureValidRoot cache_file;
                  Native (N_mkdir (VString "/data/cache/siphon-data-app") true);
                  Native (N_readFile cache_file)] |}) /\
  (forall contents options,
      writeFile Sample.cfg Sample.rn Sample.lib cache_file contents
        (VString "utf16") options initial
      = (Threw (invalid_encoding (VString "utf16")), initial)).
Proof.
  split; [reflexivity|]. split; [reflexivity|]. split; [reflexivity|].
  split; [reflexivity|].
  apply (unsupported_encoding_checked_after_read Sample.cfg Sample.rn
           Sample.lib cache_file (VString "utf16") initial);
    reflexivity.
Defined.

(** C4, as stated, fails: a download started without a begin callback
    registers the default listener, takes subscription 0 for it, and
    removes it when the download succeeds. *)
Lemma default_begin_takes_subscription :
  truthy VUndefined = false /\
  trace (snd (downloadFile Sample.cfg Sample.rn url download_target
                VUndefined VUndefined initial))
  = [AddListener NativeAppEventEmitter "DownloadBegin-1" DefaultBegin 0;
     EnsureValidRoot download_target;
     Native (N_mkdir (VString "/data/files/siphon-data-app") false);
     Native (N_downloadFile url download_target 1);
     Remove 0].
Proof. split; reflexivity. Qed.

(** The same download, read as the registration of the default listener. *)
Lemma default_begin_is_subscribed_witness :
  truthy VUndefined = false /\
  exists rest,
    trace (snd (downloadFile Sample.cfg Sample.rn url download_target
                  VUndefined VUndefined initial))
    = (trace initial
       ++ listeners_for Sample.cfg (begin_channel (add1 (jobId initial)))
            DefaultBegin (List.length (trace initial))
       ++ rest)%list.
Proof.
  split; [reflexivity|].
  apply (default_begin_is_subscribed Sample.cfg Sample.rn url download_target
           VUndefined VUndefined initial).
  reflexivity.
Defined.

(** C5, as stated, fails: [readdir] enters the guard twice. *)
Lemma readdir_enters_guard_twice :
  run Sample.cfg Sample.rn Sample.lib (Call_readdir cache_dir) initial
  = (Returned (Fulfilled (R_names ["a.txt"])),
     {| jobId := 0;
        trace := [EnsureValidRoot cache_dir;
                  Native (N_mkdir (VString "/data/cache/siphon-data-app") true);
                  EnsureValidRoot cache_dir;
                  Native (N_mkdir (VString "/data/cache/siphon-data-app") true);
                  Native (N_readDir cache_dir)] |}) /\
  guards (trace (snd (run Sample.cfg Sample.rn Sample.lib
                        (Call_readdir cache_dir) initial)))
  = [cache_dir; cache_dir].
Proof. split; reflexivity. Qed.

(** C6, as stated, fails: dropping a ["."] segment can bring the characters
    of a separator together, and the second pass then reads a scheme, or
    cuts at a second separator. *)
Lemma normalizePath_not_idempotent :
  normalizePath (VString ":/.//x") = Ok "://x" /\
  normalizePath (VString "://x") = Ok "x" /\
  normalizePath (VString "a:/.//b:/.//c") = Ok "a://b://c" /\
  normalizePath (VString "a://b://c") = Ok "a://b" /\
  "x" <> "://x" /\ "a://b" <> "a://b://c".
Proof. repeat split; (reflexivity || discriminate). Qed.

(** On the sample roots: a path under the documents root, a path that
    only shares its characters, a path under no root. *)
Lemma rootDir_first_matching_root_witness :
  validDirs Sample.cfg
  = Ok ["/data/cache/siphon-data-app"; "/data/files/siphon-data-app"] /\
  rootDir Sample.cfg (VString "/data/files/siphon-data-app/x/../y")
  = Ok (Some "/data/files/siphon-data-app") /\
  rootDir Sample.cfg (VString "/data/files/siphon-data-appendix")
  = Ok (Some "/data/files/siphon-data-app") /\
  rootDir Sample.cfg (VString "/data/files/x") = Ok None /\
  exists q,
    normalizePath (VString "/data/files/siphon-data-app/x/../y") = Ok q /\
    (forall i R,
        nth_error ["/data/cache/siphon-data-app";
                   "/data/files/siphon-data-app"] i = Some R ->
        startsWith R q = true ->
        (forall j R', j < i ->
                      nth_error ["/data/cache/siphon-data-app";
                                 "/data/files/siphon-data-app"] j = Some R' ->
                      startsWith R' q = false) ->
        rootDir Sample.cfg (VString "/data/files/siphon-data-app/x/../y")
        = Ok (Some R)) /\
    ((forall R, In R ["/data/cache/siphon-data-app";
                      "/data/files/siphon-data-app"] ->
                startsWith R q = false) ->
     rootDir Sample.cfg (VString "/data/files/siphon-data-app/x/../y")
     = Ok None).
Proof.
  split; [reflexivity|]. split; [reflexivity|]. split; [reflexivity|].
  split; [reflexivity|].
  apply (rootDir_first_matching_root Sample.cfg
           "/data/files/siphon-data-app/x/../y"
           ["/data/cache/siphon-data-app"; "/data/files/siphon-data-app"]).
  reflexivity.
Defined.

End Examples.

(* ------------------------------------------------------------------ *)
(** ** Further properties of the path functions *)
(* ------------------------------------------------------------------ *)

Module PathProps.
Import JsString Js Path Spec Segments Exports.
Import JsStringFacts PathFacts NormalizeFacts NormalizeTheory RootFacts
  FacadeFacts.

Lemma slice_last_slash (p : string) : slice_last (p ++ "/") = "/".
Proof.
  induction p as [|c p IH]; [reflexivity|].
  cbn [append slice_last]. rewrite IH.
  destruct (p ++ "/") eqn:E; [|reflexivity].
  destruct p; discriminate.
Qed.

(** X1: with an application identifier set, [processDirPath] appends
    ["/siphon-data-<appID>"] to a base path, and a base path given with a
    trailing ["/"] yields the same root as the base path without it. *)
Theorem processDirPath_trailing_slash (cfg : config) (a p : string) :
  appID cfg = Some a -> a <> "" -> slice_last p <> "/" ->
  processDirPath cfg (VString p) = Ok (p ++ "/siphon-data-" ++ a) /\
  processDirPath cfg (VString (p ++ "/")) = processDirPath cfg (VString p).
Proof.
  intros Ha Hne Hp. unfold processDirPath. rewrite Ha.
  assert (Hl : (String.length a <? 1)%nat = false).
  { apply Nat.ltb_ge. destruct a; [congruence | simpl; lia]. }
  rewrite Hl, slice_last_slash. apply String.eqb_neq in Hp. rewrite Hp.
  cbn [negb]. rewrite String.eqb_refl. cbn [negb].
  split; [reflexivity|]. f_equal. now rewrite append_assoc.
Qed.

Lemma processDirPath_trailing_slash_witness :
  appID Sample.cfg = Some "app" /\
  processDirPath Sample.cfg (VString "/data/cache")
  = Ok "/data/cache/siphon-data-app" /\
  processDirPath Sample.cfg (VString "/data/cache/")
  = processDirPath Sample.cfg (VString "/data/cache").
Proof.
  split; [reflexivity|].
  apply (processDirPath_trailing_slash Sample.cfg "app" "/data/cache");
    [reflexivity | discriminate | discriminate].
Defined.

Lemma reassemble_length (scheme : string) (body : string) :
  String.length (reassemble (Some scheme) (normParts_of body))
  <= String.length scheme + 3 + String.length body.
Proof.
  unfold reassemble.
  change (join "/" (normParts_of body)) with (normalizeBody body).
  pose proof (normalizeBody_length body).
  destruct (scheme =? ""); cbn [negb]; rewrite ?length_append; simpl; lia.
Qed.

(** X2: [normalizePath] never returns a string longer than its argument. *)
Theorem normalizePath_never_longer (p q : string) :
  normalizePath (VString p) = Ok q -> String.length q <= String.length p.
Proof.
  intros H.
  destruct (cut "://" p) as [[a b]|] eqn:E.
  - rewrite (normalizePath_eq _ _ _ (scheme_split_some _ _ _ E)) in H.
    injection H as <-.
    pose proof (cut_Some _ _ _ _ E) as Hp. apply (f_equal String.length) in Hp.
    rewrite !length_append in Hp. simpl in Hp.
    etransitivity; [apply reassemble_length|].
    destruct (cut "://" b) as [[x y]|] eqn:Eb; [|lia].
    apply cut_Some in Eb. apply (f_equal String.length) in Eb.
    rewrite !length_append in Eb. lia.
  - rewrite (normalizePath_eq _ _ _ (scheme_split_none _ E)) in H.
    injection H as <-. apply normalizeBody_length.
Qed.

Lemma normalizePath_never_longer_witness :
  normalizePath (VString "a/b/./c/../d") = Ok "a/b/d" /\
  String.length "a/b/d" <= String.length "a/b/./c/../d".
Proof.
  split; [reflexivity|].
  apply (normalizePath_never_longer "a/b/./c/../d" "a/b/d"). reflexivity.
Defined.

(** X3: on a path without ["://"], the result of [normalizePath] has no
    ["."] and no [".."] segment, and the path comes back unchanged exactly
    when it had none. *)
Theorem normalizePath_resolves_dots (p q : string) :
  cut "://" p = None ->
  normalizePath (VString p) = Ok q ->
  dot_free q /\ (q = p <-> dot_free p).
Proof.
  intros E H.
  rewrite (normalizePath_eq _ _ _ (scheme_split_none _ E)) in H.
  injection H as <-. cbn [reassemble].
  change (join "/" (normParts_of p)) with (normalizeBody p).
  split; [apply normalizeBody_dot_free|]. split.
  - intros Hq. rewrite <- Hq. apply normalizeBody_dot_free.
  - apply normalizeBody_fixed.
Qed.

Lemma normalizePath_resolves_dots_witness :
  cut "://" "/a/./b/../c" = None /\
  normalizePath (VString "/a/./b/../c") = Ok "/a/c" /\
  dot_free "/a/c" /\ ("/a/c" = "/a/./b/../c" <-> dot_free "/a/./b/../c").
Proof.
  split; [reflexivity|]. split; [reflexivity|].
  apply (normalizePath_resolves_dots "/a/./b/../c" "/a/c"); reflexivity.
Defined.

(** The separator cannot begin inside a text without one and end in the
    separator that follows it. *)
Lemma startsWith_straddle (u b : string) :
  startsWith "://" u = false -> u <> "" ->
  startsWith "://" (u ++ "://" ++ b) = false.
Proof.
  intros H Hne.
  destruct u as [|c1 [|c2 [|c3 u]]]; [congruence | | |].
  - cbn [append startsWith]. destruct (Ascii.eqb ":" c1); reflexivity.
  - cbn [append startsWith]. destruct (Ascii.eqb ":" c1); [|reflexivity].
    destruct (Ascii.eqb "/" c2); reflexivity.
  - cbn [append startsWith] in *. exact H.
Qed.

Lemma cut_none_head (sep : string) (c : ascii) (u : string) :
  cut sep (String c u) = None ->
  startsWith sep (String c u) = false /\ cut sep u = None.
Proof.
  cbn [cut]. destruct (startsWith sep (String c u)); [discriminate|].
  destruct (cut sep u) as [[a b]|]; [discriminate | now split].
Qed.

Lemma cut_after_clean (u b : string) :
  cut "://" u = None -> cut "://" (u ++ "://" ++ b) = Some (u, b).
Proof.
  induction u as [|c u IH]; intros H; [exact (cut_here "://" b)|].
  apply cut_none_head in H as [Hs Hc].
  assert (E : startsWith "://" (String c (u ++ "://" ++ b)) = false)
    by (apply (startsWith_straddle (String c u) b Hs); discriminate).
  change (String c u ++ "://" ++ b) with (String c (u ++ "://" ++ b)).
  cbn [cut]. now rewrite E, (IH Hc).
Qed.

Lemma scheme_split_exact (s b : string) :
  cut "://" s = None -> cut "://" b = None ->
  scheme_split (s ++ "://" ++ b) = Ok (Some s, b).
Proof.
  intros Hs Hb.
  rewrite (scheme_split_some _ _ _ (cut_after_clean s b Hs)).
  now rewrite Hb.
Qed.

(** X4: the text before the first ["://"] is returned as it stands, its
    ["."] and [".."] segments unresolved, and only the text after it is
    normalized; when nothing stands before the separator, the separator is
    dropped with it. *)
Theorem normalizePath_keeps_scheme (s b : string) :
  cut "://" s = None -> cut "://" b = None ->
  normalizePath (VString (s ++ "://" ++ b))
  = Ok (if s =? "" then normalizeBody b else s ++ "://" ++ normalizeBody b).
Proof.
  intros Hs Hb.
  rewrite (normalizePath_eq _ _ _ (scheme_split_exact s b Hs Hb)).
  unfold reassemble, normalizeBody. now destruct (s =? "").
Qed.

Lemma normalizePath_keeps_scheme_witness :
  cut "://" "a/../b" = None /\ cut "://" "x/../y" = None /\
  normalizePath (VString "a/../b://x/../y") = Ok "a/../b://y".
Proof.
  split; [reflexivity|]. split; [reflexivity|].
  apply (normalizePath_keeps_scheme "a/../b" "x/../y"); reflexivity.
Defined.

Lemma validDirs_head_nonempty (cfg : config) (R : string)
    (rest : list string) :
  validDirs cfg = Ok (R :: rest) -> R <> "".
Proof.
  intros H. destruct (validDirs_order _ _ H) as (c & d & Hc & _ & Hl).
  assert (R = c).
  { destruct (OS cfg =? "ios"); [destruct Hl as (l & _ & Hl)|];
      now inversion Hl. }
  subst c. unfold processDirPath in Hc.
  destruct (NSCachesDirectoryPath cfg); try discriminate.
  destruct (appID cfg) as [a|]; [|discriminate].
  destruct (String.length a <? 1)%nat; [discriminate|].
  injection Hc as <-. intros Hr. apply (f_equal String.length) in Hr.
  rewrite length_append in Hr.
  destruct (negb (slice_last s =? "/")); simpl in Hr; lia.
Qed.

(** X5: [rootDir] tests the root against a path whose text before the
    first ["://"] has not been normalized: a path that begins with the
    caches root and holds a ["://"] further on is owned by the caches root,
    whatever stands between the two, [".."] segments included. *)
Theorem rootDir_owns_through_scheme (cfg : config) (R : string)
    (rest : list string) (t b : string) :
  validDirs cfg = Ok (R :: rest) ->
  cut "://" (R ++ t) = None -> cut "://" b = None ->
  rootDir cfg (VString (R ++ t ++ "://" ++ b)) = Ok (Some R).
Proof.
  intros Hd Ht Hb. unfold rootDir.
  rewrite <- append_assoc.
  rewrite (normalizePath_eq _ _ _ (scheme_split_exact _ _ Ht Hb)), Hd.
  cbn [bind reassemble].
  assert (Hne : ((R ++ t) =? "") = false).
  { apply String.eqb_neq. intros H.
    apply (validDirs_head_nonempty _ _ _ Hd).
    destruct R; [reflexivity | discriminate]. }
  rewrite Hne. cbn [negb rootDir_loop].
  rewrite substring_prefix_test, !append_assoc, startsWith_append.
  f_equal. f_equal. apply substring_prefix_value, startsWith_append.
Qed.

Lemma rootDir_owns_through_scheme_witness :
  validDirs Sample.cfg
  = Ok ["/data/cache/siphon-data-app"; "/data/files/siphon-data-app"] /\
  cut "://" ("/data/cache/siphon-data-app" ++ "/../../other") = None /\
  rootDir Sample.cfg
    (VString ("/data/cache/siphon-data-app" ++ "/../../other" ++ "://" ++ "x"))
  = Ok (Some "/data/cache/siphon-data-app").
Proof.
  split; [reflexivity|]. split; [reflexivity|].
  apply (rootDir_owns_through_scheme Sample.cfg "/data/cache/siphon-data-app"
           ["/data/files/siphon-data-app"] "/../../other" "x");
    reflexivity.
Defined.

Lemma normParts_of_app (a b : string) :
  normParts_of (a ++ "/" ++ b)
  = fold_left loop_step (segments b) (normParts_of a).
Proof. now rewrite !normParts_of_fold, segments_app, fold_left_app. Qed.




(** X7: a segment followed by [".."] cancels out: on paths without
    ["://"], [a/x/../b] and [a/b] have the same normal form, for every
    segment [x] other than ["."] and [".."]. *)
Theorem normalizePath_cancels_dotdot (a x b : string) :
  is_dot x = false -> slash_free x ->
  cut "://" (a ++ "/" ++ x ++ "/../" ++ b) = None ->
  cut "://" (a ++ "/" ++ b) = None ->
  normalizePath (VString (a ++ "/" ++ x ++ "/../" ++ b))
  = normalizePath (VString (a ++ "/" ++ b)).
Proof.
  intros Hx Hs H1 H2.
  rewrite (normalizePath_eq _ _ _ (scheme_split_none _ H1)).
  rewrite (normalizePath_eq _ _ _ (scheme_split_none _ H2)).
  do 2 f_equal.
  change (a ++ "/" ++ x ++ "/../" ++ b)
    with (a ++ "/" ++ (x ++ "/" ++ (".." ++ "/" ++ b))).
  rewrite !normParts_of_app, !segments_app, Hs.
  cbn [app segments Ascii.eqb Bool.eqb fold_left].
  unfold is_dot in Hx. apply orb_false_iff in Hx as [E1 E2].
  unfold loop_step at 2 3. rewrite E1, E2. cbn [String.eqb Ascii.eqb Bool.eqb].
  unfold pop, push. now rewrite removelast_last.
Qed.

Lemma normalizePath_cancels_dotdot_witness :
  normalizePath (VString ("/a" ++ "/" ++ "tmp" ++ "/../" ++ "b")) = Ok "/a/b" /\
  normalizePath (VString ("/a" ++ "/" ++ "tmp" ++ "/../" ++ "b"))
  = normalizePath (VString ("/a" ++ "/" ++ "b")).
Proof.
  split; [reflexivity|].
  apply (normalizePath_cancels_dotdot "/a" "tmp" "b"); reflexivity.
Defined.

(** X8: what [rootDir] returns is one of the configured roots and a prefix
    of the normalized path, and it returns null only when no configured
    root is a prefix of the normalized path. *)
Theorem rootDir_sound (cfg : config) (p : string) (o : option string) :
  rootDir cfg (VString p) = Ok o ->
  exists dirs q,
    validDirs cfg = Ok dirs /\ normalizePath (VString p) = Ok q /\
    match o with
    | Some r => In r dirs /\ startsWith r q = true
    | None => forall d, In d dirs -> startsWith d q = false
    end.
Proof.
  unfold rootDir. intros H.
  destruct (normalizePath (VString p)) as [q|]; [|discriminate].
  destruct (validDirs cfg) as [dirs|]; [|discriminate].
  cbn [bind] in H. injection H as H. rewrite rootDir_loop_find in H.
  exists dirs, q. split; [reflexivity|]. split; [reflexivity|].
  destruct o as [r|].
  - now apply find_some in H.
  - intros d Hd. exact (Stdlib.Lists.List.find_none _ _ H d Hd).
Qed.

Lemma rootDir_sound_witness :
  rootDir Sample.cfg (VString "/data/files/siphon-data-app/x/../y")
  = Ok (Some "/data/files/siphon-data-app") /\
  exists dirs q,
    validDirs Sample.cfg = Ok dirs /\
    normalizePath (VString "/data/files/siphon-data-app/x/../y") = Ok q /\
    In "/data/files/siphon-data-app" dirs /\
    startsWith "/data/files/siphon-data-app" q = true.
Proof.
  split; [reflexivity|].
  apply (rootDir_sound Sample.cfg "/data/files/siphon-data-app/x/../y"
           (Some "/data/files/siphon-data-app")).
  reflexivity.
Defined.

Lemma rootDir_in_dirs (cfg : config) (p : value) (r : string)
    (dirs : list string) :
  validDirs cfg = Ok dirs -> rootDir cfg p = Ok (Some r) -> In r dirs.
Proof.
  intros Hd. unfold rootDir.
  destruct (normalizePath p) as [q|]; [|discriminate].
  rewrite Hd. cbn [bind]. intros H. injection H as H.
  rewrite rootDir_loop_find in H. now apply find_some in H.
Qed.

Lemma exports_validDirs (cfg : config) (k : constants) :
  exports cfg = Ok k -> validDirs cfg = Ok (exported k).
Proof.
  unfold exports, validDirs, exported.
  destruct (processDirPath cfg (NSCachesDirectoryPath cfg)) as [c|]; [|discriminate].
  destruct (processDirPath cfg (NSDocumentDirectoryPath cfg)) as [d|]; [|discriminate].
  cbn [bind]. destruct (OS cfg =? "ios").
  - destruct (processDirPath cfg (NSLibraryDirectoryPath cfg)) as [l|]; [|discriminate].
    cbn [bind]. intros H. injection H as <-. reflexivity.
  - intros H. injection H as <-. reflexivity.
Qed.

(** X9: the exported constants are the roots [rootDir] looks for, in the
    same order, the library one on iOS only; and a path that extends an
    exported constant, has no ["://"] and no ["."] or [".."] segment is
    owned by one of them. *)
Theorem exported_paths_are_owned (cfg : config) (k : constants) :
  exports cfg = Ok k ->
  validDirs cfg = Ok (exported k) /\
  (LibraryDirectoryPath k <> None <-> OS cfg = "ios") /\
  forall D t,
    In D (exported k) ->
    cut "://" (D ++ t) = None -> dot_free (D ++ t) ->
    exists R,
      rootDir cfg (VString (D ++ t)) = Ok (Some R) /\
      In R (exported k) /\ startsWith R (D ++ t) = true.
Proof.
  intros Hk. pose proof (exports_validDirs _ _ Hk) as Hd.
  split; [exact Hd|]. split.
  - unfold exports in Hk.
    destruct (processDirPath cfg (NSCachesDirectoryPath cfg)); [|discriminate].
    destruct (processDirPath cfg (NSDocumentDirectoryPath cfg)); [|discriminate].
    cbn [bind] in Hk. destruct (OS cfg =? "ios") eqn:E.
    + destruct (processDirPath cfg (NSLibraryDirectoryPath cfg)); [|discriminate].
      injection Hk as <-. apply String.eqb_eq in E. cbn. split; [easy|discriminate].
    + injection Hk as <-. apply String.eqb_neq in E. cbn. split; [congruence|easy].
  - intros D t HD Hc Hf. unfold rootDir.
    rewrite (normalizePath_eq _ _ _ (scheme_split_none _ Hc)), Hd.
    cbn [bind reassemble].
    change (join "/" (normParts_of (D ++ t))) with (normalizeBody (D ++ t)).
    rewrite (normalizeBody_fixed _ Hf), rootDir_loop_find.
    destruct (List.find (fun d => startsWith d (D ++ t)) (exported k))
      as [R|] eqn:Ef.
    + exists R. split; [reflexivity|]. now apply find_some in Ef.
    + pose proof (Stdlib.Lists.List.find_none _ _ Ef D HD) as Hn.
      cbn beta in Hn. now rewrite startsWith_append in Hn.
Qed.

Lemma exported_paths_are_owned_witness :
  exports Sample.cfg
  = Ok {| CachesDirectoryPath := "/data/cache/siphon-data-app";
          DocumentDirectoryPath := "/data/files/siphon-data-app";
          LibraryDirectoryPath := None |} /\
  validDirs Sample.cfg
  = Ok ["/data/cache/siphon-data-app"; "/data/files/siphon-data-app"].
Proof.
  split; [reflexivity|].
  apply (exported_paths_are_owned Sample.cfg
           {| CachesDirectoryPath := "/data/cache/siphon-data-app";
              DocumentDirectoryPath := "/data/files/siphon-data-app";
              LibraryDirectoryPath := None |}).
  reflexivity.
Defined.

End PathProps.

(* ------------------------------------------------------------------ *)
(** ** Further properties of the facade *)
(* ------------------------------------------------------------------ *)

Module FacadeProps.
Import JsString Js Path Facade Observe Exports Delegate.
Import JsStringFacts NormalizeTheory RootFacts FacadeFacts RunFacts.

Lemma converted_eq (e : error) :
  converted e
  = MkError false None None
      (Some match or_string (description (unwrapped e))
                   (message (unwrapped e)) with
            | Some m => m
            | None => ""
            end)
      (code (unwrapped e)).
Proof.
  unfold converted, convertError, unwrapped.
  destruct (isOperational e); destruct (cause e); reflexivity.
Qed.

(** X10: [convertError] unwraps one level of operational cause, takes the
    description before the message and keeps the code; what it throws is a
    plain error, which a second conversion leaves as it is. *)
Theorem convertError_normal_form (e : error) :
  converted (converted e) = converted e /\
  isOperational (converted e) = false /\
  cause (converted e) = None /\
  code (converted e) = code (unwrapped e) /\
  message (converted e)
  = Some match or_string (description (unwrapped e)) (message (unwrapped e)) with
         | Some m => m
         | None => ""
         end.
Proof.
  rewrite (converted_eq e). repeat split.
Qed.

Lemma natives_app (a b : list event) :
  natives (a ++ b) = (natives a ++ natives b)%list.
Proof.
  induction a as [|e a IH]; [reflexivity|].
  destruct e; simpl; now rewrite ?IH.
Qed.

Lemma removed_app (a b : list event) : removed (a ++ b) = removed a + removed b.
Proof.
  induction a as [|e a IH]; [reflexivity|].
  destruct e; simpl; now rewrite ?IH.
Qed.

Lemma listeners_silent (l : list event) :
  forallb is_listener l = true -> natives l = [] /\ removed l = 0.
Proof.
  induction l as [|e l IH]; intros H; [now split|].
  cbn [forallb] in H. apply andb_true_iff in H as [He Hl].
  destruct e; try discriminate. cbn. now apply IH.
Qed.

Lemma erase_rejected {A} (s : settled A) (e : error) :
  erase s = Rejected e -> s = Rejected e.
Proof. destruct s; cbn; congruence. Qed.

Lemma erase_fulfilled {A} (s : settled A) :
  fulfilled (erase s) = fulfilled s.
Proof. now destruct s. Qed.

Section Entry.

Variable cfg : config.
Variable rn : native.
Variable lib : codecs.

(** What the entry world adds to the trace: listeners only. *)
Lemma entry_trace (c : call) (w : world) :
  exists pre,
    trace (entry cfg c w) = (trace w ++ pre)%list /\
    forallb is_listener pre = true.
Proof.
  destruct c; cbn [entry]; try (exists []; now rewrite app_nil_r).
  eexists. split; [reflexivity|]. apply (registered_listeners cfg).
Qed.

(** An operation whose guard is not fulfilled stops there. *)
Lemma run_guard_not_fulfilled (c : call) (w : world) :
  let g := _ensureValidRoot cfg rn (target c) (entry cfg c w) in
  fulfilled (fst g) = false ->
  (exists e, run cfg rn lib c w = (Threw e, w)) \/
  run cfg rn lib c w
  = (Returned match fst g with
              | Rejected e => Rejected (guard_error c e)
              | _ => Pending
              end, snd g).
Proof.
  cbn zeta. intros Hf.
  assert (Hk : forall B (k : unit -> promise B) w0,
             fulfilled (fst (_ensureValidRoot cfg rn (target c) w0)) = false ->
             then_ (_ensureValidRoot cfg rn (target c)) k w0
             = (match fst (_ensureValidRoot cfg rn (target c) w0) with
                | Rejected e => Rejected e
                | _ => Pending
                end, snd (_ensureValidRoot cfg rn (target c) w0))).
  { intros B k w0 H. rewrite then_guard.
    destruct (fst (_ensureValidRoot cfg rn (target c) w0)); easy. }
  destruct c; cbn [run target entry guard_error] in *;
    try (right; unfold readDir, readdir, stat, exists_, readFile, moveFile,
           unlink, mkdir;
         apply injective_projections; cbn [fst snd];
         rewrite ?fst_returned, ?snd_returned, ?fst_fmap, ?snd_fmap,
           ?fst_catch_convertError, ?snd_catch, ?downloadFile_eq,
           (Hk _ _ _ Hf);
         cbn [fst snd];
         [destruct (fst (_ensureValidRoot _ _ _ _)); reflexivity
         | reflexivity]).
  unfold writeFile, mbind. cbv zeta.
  match goal with
  | |- context [match ?b with Ok _ => _ | Throw _ => _ end] =>
      destruct b as [b64|e]
  end; [right | left; exists e; reflexivity].
  unfold returned, mbind. rewrite (Hk _ _ _ Hf).
  destruct (fst (_ensureValidRoot cfg rn filepath w)); reflexivity.
Qed.

(** When [rootDir] throws, the guard rejects with what was thrown, before
    any call on the native module. *)
Lemma run_guard_throws (c : call) (w : world) (m : string) :
  rootDir cfg (target c) = Throw (Error_ (Some m)) ->
  (exists e, run cfg rn lib c w = (Threw e, w)) \/
  (fst (run cfg rn lib c w) = Returned (Rejected (Error_ (Some m))) /\
   natives (trace (snd (run cfg rn lib c w))) = natives (trace w)).
Proof.
  intros Hr.
  pose proof (ensureValidRoot_cases cfg rn (target c) (entry cfg c w)) as Hg.
  rewrite Hr in Hg.
  assert (Hnf : fulfilled (fst (_ensureValidRoot cfg rn (target c)
                                  (entry cfg c w))) = false)
    by (rewrite Hg; first [reflexivity | exact Hf]).
  destruct (run_guard_not_fulfilled c w Hnf) as [Ht | Hrun]; [now left|].
  right. rewrite Hrun, Hg. cbn [fst snd]. split.
  - f_equal. f_equal. destruct c; reflexivity.
  - destruct (entry_trace c w) as (pre & Hpre & Hl).
    cbn [extend trace]. rewrite Hpre, !natives_app.
    destruct (listeners_silent pre Hl) as [-> _]. cbn [natives].
    now rewrite !app_nil_r.
Qed.

(** X11: with the application identifier unset or empty, every operation
    on a string path that does not throw is rejected with the error
    ['Global appID must be set.'], and no call on the native module is
    made. *)
Theorem unset_appID_rejects (c : call) (w : world) (p base : string) :
  appID cfg = None \/ appID cfg = Some "" ->
  target c = VString p ->
  NSCachesDirectoryPath cfg = VString base ->
  (exists e, run cfg rn lib c w = (Threw e, w)) \/
  (fst (run cfg rn lib c w)
   = Returned (Rejected (Error_ (Some "Global appID must be set."))) /\
   natives (trace (snd (run cfg rn lib c w))) = natives (trace w)).
Proof.
  intros Ha Hp Hb. apply run_guard_throws.
  rewrite Hp. unfold rootDir.
  destruct (normalizePath_total p) as [q ->]. cbn [bind].
  unfold validDirs. rewrite Hb. unfold processDirPath at 1.
  destruct Ha as [-> | ->]; reflexivity.
Qed.

(** X12: every operation whose target path is not a string, and that does
    not throw, is rejected with the error ['Path must be a string.
    Provided was <typeof path>'], and no call on the native module is
    made. *)
Theorem non_string_path_rejects (c : call) (w : world) :
  (forall s, target c <> VString s) ->
  (exists e, run cfg rn lib c w = (Threw e, w)) \/
  (fst (run cfg rn lib c w)
   = Returned (Rejected
       (Error_ (Some ("Path must be a string. Provided was "
                      ++ typeof (target c))))) /\
   natives (trace (snd (run cfg rn lib c w))) = natives (trace w)).
Proof.
  intros Hs. apply run_guard_throws. unfold rootDir, normalizePath.
  destruct (target c) as [| | | |s| |] eqn:E; try reflexivity.
  now destruct (Hs s).
Qed.

(** X13: when the native [mkdir] of the owning root is rejected or never
    answers, the operation settles the same way ([readDir] converting the
    error) and the only call made on the native module is that [mkdir]:
    the operation's own native call is never made. *)
Theorem root_mkdir_failure_stops (c : call) (w : world) (root caches : string)
    (s : settled unit) :
  rootDir cfg (target c) = Ok (Some root) ->
  processDirPath cfg (NSCachesDirectoryPath cfg) = Ok caches ->
  native_mkdir rn (trace (entry cfg c w) ++ [EnsureValidRoot (target c)])
    (VString root) (root =? caches) = s ->
  fulfilled s = false ->
  (exists e, run cfg rn lib c w = (Threw e, w)) \/
  (fst (run cfg rn lib c w)
   = Returned match s with
              | Rejected e => Rejected (guard_error c e)
              | _ => Pending
              end /\
   natives (trace (snd (run cfg rn lib c w)))
   = (natives (trace w) ++ [N_mkdir (VString root) (root =? caches)])%list).
Proof.
  intros Hr Hc Hm Hf.
  pose proof (ensureValidRoot_cases cfg rn (target c) (entry cfg c w)) as Hg.
  rewrite Hr in Hg. destruct Hg as (c' & Hc' & Hg).
  rewrite Hc in Hc'. injection Hc' as <-. rewrite Hm in Hg.
  assert (Hnf : fulfilled (fst (_ensureValidRoot cfg rn (target c)
                                  (entry cfg c w))) = false)
    by (rewrite Hg; first [reflexivity | exact Hf]).
  destruct (run_guard_not_fulfilled c w Hnf) as [Ht | Hrun]; [now left|].
  right. rewrite Hrun, Hg. cbn [fst snd]. split; [reflexivity|].
  destruct (entry_trace c w) as (pre & Hpre & Hl).
  cbn [extend trace]. rewrite Hpre, !natives_app.
  destruct (listeners_silent pre Hl) as [-> _]. now rewrite app_nil_r.
Qed.

(** X14: when a root owns the path, [_ensureValidRoot] makes one call on
    the native module, [mkdir] of that root, with [excludeFromBackup] true
    exactly when the root is the exported caches directory, and settles as
    that call does; the root is one of the exported constants. *)
Theorem guard_creates_owning_root (p : value) (w : world) (root : string)
    (k : constants) :
  exports cfg = Ok k ->
  rootDir cfg p = Ok (Some root) ->
  In root (exported k) /\
  _ensureValidRoot cfg rn p w
  = (native_mkdir rn (trace w ++ [EnsureValidRoot p]) (VString root)
       (root =? CachesDirectoryPath k),
     extend w [EnsureValidRoot p;
               Native (N_mkdir (VString root)
                         (root =? CachesDirectoryPath k))]).
Proof.
  intros Hk Hr.
  assert (Hc : processDirPath cfg (NSCachesDirectoryPath cfg)
               = Ok (CachesDirectoryPath k)).
  { unfold exports in Hk.
    destruct (processDirPath cfg (NSCachesDirectoryPath cfg)); [|discriminate].
    destruct (processDirPath cfg (NSDocumentDirectoryPath cfg)); [|discriminate].
    cbn [bind] in Hk. destruct (OS cfg =? "ios");
      [destruct (processDirPath cfg (NSLibraryDirectoryPath cfg));
       [|discriminate]|];
      injection Hk as <-; reflexivity. }
  split.
  - exact (PathProps.rootDir_in_dirs _ _ _ _
             (PathProps.exports_validDirs _ _ Hk) Hr).
  - pose proof (ensureValidRoot_cases cfg rn p w) as Hg.
    rewrite Hr in Hg. destruct Hg as (c' & Hc' & Hg).
    rewrite Hc in Hc'. injection Hc' as <-. exact Hg.
Qed.

End Entry.

Section Passed.

Variable cfg : config.
Variable rn : native.
Variable lib : codecs.

(** The root that owns the paths considered, its native [mkdir] always
    fulfilled. *)
Variable root caches : string.
Hypothesis caches_root :
  processDirPath cfg (NSCachesDirectoryPath cfg) = Ok caches.
Hypothesis root_made :
  forall h, native_mkdir rn h (VString root) (root =? caches) = Fulfilled tt.

Lemma guard_passes (p : value) (w : world) :
  rootDir cfg p = Ok (Some root) ->
  _ensureValidRoot cfg rn p w
  = (Fulfilled tt,
     extend w [EnsureValidRoot p;
               Native (N_mkdir (VString root) (root =? caches))]).
Proof.
  intros Hr. pose proof (ensureValidRoot_cases cfg rn p w) as Hg.
  rewrite Hr in Hg. destruct Hg as (c' & Hc' & Hg).
  rewrite caches_root in Hc'. injection Hc' as <-.
  now rewrite Hg, root_made.
Qed.

Ltac run_through Hr :=
  unfold readdir, readDir, stat, exists_, readFile, moveFile, unlink, mkdir,
    returned, fmap, then_sync, catch_, then_, _readDir, _stat, _exists,
    _readFile, _writeFile, _moveFile, _unlink, _mkdir, call_native, history,
    emit, mbind, ret;
  repeat (rewrite (guard_passes _ _ Hr); cbn [fst snd jobId trace extend]).

(** X15: when the root is in place and the native call of an operation is
    rejected, the operation is rejected with the converted error (converted
    once, or twice to the same effect in [readDir]); that call is the last
    one made on the native module, after the [mkdir] of the root by each
    entry of the guard, and no subscription is removed. *)
Theorem native_failure_is_converted (c : call) (w : world)
    (nc : native_call) (e : error) :
  rootDir cfg (target c) = Ok (Some root) ->
  delegate lib c w = Some nc ->
  (forall h, native_answer rn h nc = Rejected e) ->
  fst (run cfg rn lib c w) = Returned (Rejected (converted e)) /\
  natives (trace (snd (run cfg rn lib c w)))
  = (natives (trace w)
     ++ repeat (N_mkdir (VString root) (root =? caches))
          (guard_entries cfg rn lib c w)
     ++ [nc])%list /\
  removed (trace (snd (run cfg rn lib c w))) = removed (trace w).
Proof.
  intros Hr Hd Hn. unfold guard_entries.
  destruct c; cbn [target delegate] in Hr, Hd;
    try (injection Hd as <-;
         assert (Hn' := fun h => erase_rejected _ _ (Hn h));
         cbn [run]; rewrite ?(guard_passes _ w Hr); cbn [fst fulfilled];
         run_through Hr; rewrite !Hn'; unfold convertError;
         cbn [fst snd trace];
         rewrite <- ?app_assoc, !natives_app, !removed_app;
         cbn [natives removed app repeat]; rewrite ?Nat.add_0_r;
         repeat split; reflexivity).
  - (* writeFile *)
    cbn [run]. unfold writeFile. fold (encoded lib contents encoding).
    destruct (encoded lib contents encoding) as [b64|]; [|discriminate].
    injection Hd as <-.
    assert (Hn' := fun h => erase_rejected _ _ (Hn h)).
    run_through Hr. rewrite !Hn'. unfold convertError.
    cbn [fst snd trace].
    rewrite <- ?app_assoc, !natives_app, !removed_app.
    cbn [natives removed app repeat]. rewrite ?Nat.add_0_r.
    repeat split; reflexivity.
  - (* downloadFile *)
    injection Hd as <-.
    assert (Hn' := fun h => erase_rejected _ _ (Hn h)).
    cbn [run]. rewrite fst_returned, snd_returned, fst_fmap, snd_fmap.
    rewrite downloadFile_eq, then_guard, (guard_passes _ _ Hr).
    cbn [fst snd]. rewrite download_delegate, Hn'.
    cbn [fst snd extend trace].
    destruct (registered_listeners cfg (add1 (jobId w)) begin progress
                (List.length (trace w))
                (List.length (trace w) + emitters cfg)) as [Hl _].
    cbn zeta in Hl. destruct (listeners_silent _ Hl) as [Hln Hlr].
    rewrite (app_assoc (trace w)), !natives_app, !removed_app.
    rewrite natives_app in Hln. rewrite removed_app in Hlr.
    apply app_eq_nil in Hln as [Hb Hp]. rewrite Hb, Hp.
    cbn [natives removed app repeat]. rewrite ?app_nil_r, <- ?app_assoc.
    repeat split; try reflexivity; lia.
Qed.

Lemma removed_removals (pr : value) (n : nat) :
  removed (removals cfg pr n) = emitters cfg.
Proof.
  unfold removals, held_ios, held_android, emitters.
  destruct (NativeAppEventEmitter_addListener cfg);
    destruct (DeviceEventEmitter_addListener cfg); reflexivity.
Qed.

Lemma natives_removals (pr : value) (n : nat) :
  natives (removals cfg pr n) = [].
Proof.
  unfold removals, held_ios, held_android.
  destruct (NativeAppEventEmitter_addListener cfg);
    destruct (DeviceEventEmitter_addListener cfg); reflexivity.
Qed.

(** X16: when the root is in place and the native call of an operation
    other than [readFile] is fulfilled, the operation is fulfilled; its
    call is the last one made on the native module, after the [mkdir] of
    the root by each entry of the guard, and only [downloadFile] removes
    subscriptions: one for each emitter that can be listened to. *)
Theorem native_success_is_fulfilled (c : call) (w : world)
    (nc : native_call) :
  rootDir cfg (target c) = Ok (Some root) ->
  delegate lib c w = Some nc ->
  (forall h, fulfilled (native_answer rn h nc) = true) ->
  (forall p enc, c <> Call_readFile p enc) ->
  (exists r, fst (run cfg rn lib c w) = Returned (Fulfilled r)) /\
  natives (trace (snd (run cfg rn lib c w)))
  = (natives (trace w)
     ++ repeat (N_mkdir (VString root) (root =? caches))
          (guard_entries cfg rn lib c w)
     ++ [nc])%list /\
  removed (trace (snd (run cfg rn lib c w)))
  = removed (trace w)
    + match c with
      | Call_downloadFile _ _ _ _ => emitters cfg
      | _ => 0
      end.
Proof.
  intros Hr Hd Hn Hc. unfold guard_entries.
  destruct c; cbn [target delegate] in Hr, Hd;
    try (injection Hd as <-;
         assert (Hn' := fun h => eq_trans (eq_sym (erase_fulfilled _)) (Hn h));
         cbn [run]; rewrite ?(guard_passes _ w Hr); cbn [fst fulfilled];
         run_through Hr;
         match goal with
         | |- context [match ?s with
                       | Fulfilled _ => _ | Rejected _ => _ | Pending => _
                       end] =>
             let H := fresh in
             pose proof (Hn' _ : fulfilled s = true) as H;
             destruct s; [clear H | discriminate H..]
         end;
         cbn [fst snd trace];
         rewrite <- ?app_assoc, !natives_app, !removed_app;
         cbn [natives removed app repeat]; rewrite ?Nat.add_0_r;
         split; [eexists; reflexivity | split; reflexivity]).
  - (* readFile *)
    now destruct (Hc filepath encoding).
  - (* writeFile *)
    cbn [run]. unfold writeFile. fold (encoded lib contents encoding).
    destruct (encoded lib contents encoding) as [b64|]; [|discriminate].
    injection Hd as <-.
    assert (Hn' := fun h => eq_trans (eq_sym (erase_fulfilled _)) (Hn h)).
    run_through Hr.
    match goal with
    | |- context [match ?s with
                  | Fulfilled _ => _ | Rejected _ => _ | Pending => _
                  end] =>
        let H := fresh in
        pose proof (Hn' _ : fulfilled s = true) as H;
        destruct s; [clear H | discriminate H..]
    end.
    cbn [fst snd trace].
    rewrite <- ?app_assoc, !natives_app, !removed_app.
    cbn [natives removed app repeat]. rewrite ?Nat.add_0_r.
    split; [eexists; reflexivity | split; reflexivity].
  - (* downloadFile *)
    injection Hd as <-.
    assert (Hn' := fun h => eq_trans (eq_sym (erase_fulfilled _)) (Hn h)).
    cbn [run]. rewrite fst_returned, snd_returned, fst_fmap, snd_fmap.
    rewrite downloadFile_eq, then_guard, (guard_passes _ _ Hr).
    cbn [fst snd]. rewrite download_delegate.
    match goal with
    | |- context [native_downloadFile rn ?h ?u ?f ?j] =>
        pose proof (Hn' h) as H;
        destruct (native_downloadFile rn h u f j); [clear H | discriminate H..]
    end.
    cbn [fst snd extend trace].
    destruct (registered_listeners cfg (add1 (jobId w)) begin progress
                (List.length (trace w))
                (List.length (trace w) + emitters cfg)) as [Hl _].
    cbn zeta in Hl. destruct (listeners_silent _ Hl) as [Hln Hlr].
    rewrite (app_assoc (trace w)), !natives_app, !removed_app.
    rewrite natives_app in Hln. rewrite removed_app in Hlr.
    apply app_eq_nil in Hln as [Hb Hp]. rewrite Hb, Hp.
    change (Native (N_downloadFile fromUrl toFile (add1 (jobId w)))
            :: removals cfg progress (List.length (trace w)))
      with ([Native (N_downloadFile fromUrl toFile (add1 (jobId w)))]
            ++ removals cfg progress (List.length (trace w)))%list.
    rewrite !natives_app, !removed_app, removed_removals.
    rewrite natives_removals.
    cbn [natives removed app repeat]. rewrite ?app_nil_r, <- ?app_assoc.
    split; [eexists; reflexivity | split; [reflexivity | lia]].
Qed.

Lemma written_app (p : value) (a b : list event) :
  written p (a ++ b) = (written p a ++ written p b)%list.
Proof.
  induction a as [|e a IH]; [reflexivity|].
  destruct e as [|c| | |]; cbn [app written]; try exact IH.
  destruct c; try exact IH.
  destruct (strict_eq filepath p); cbn [app]; now rewrite IH.
Qed.

Lemma rootDir_string (p : value) (o : option string) :
  rootDir cfg p = Ok o -> exists s, p = VString s.
Proof.
  unfold rootDir, normalizePath.
  destruct p; try discriminate. intros _. now eexists.
Qed.

Lemma decoded_encoded (contents b64 : string) (enc : value) :
  (forall s r, utf8_encode lib s = Ok r -> utf8_decode lib r = Ok s) ->
  (forall s r, base64_encode lib s = Ok r -> base64_decode lib r = Ok s) ->
  encoded lib contents enc = Ok b64 ->
  decoded lib b64 enc = Ok contents.
Proof.
  intros Hu Hb. unfold encoded, decoded. cbv zeta.
  destruct (strict_eq_string (default_encoding enc) "utf8").
  - destruct (utf8_encode lib contents) as [raw|] eqn:Er; [|discriminate].
    cbn [bind]. intros He. rewrite (Hb _ _ He). cbn [bind]. now apply Hu.
  - destruct (strict_eq_string (default_encoding enc) "ascii");
      [now apply Hb|].
    destruct (strict_eq_string (default_encoding enc) "base64");
      [|discriminate].
    intros He. now injection He as ->.
Qed.

(** X17: when the root that owns the path is in place (the path is owned
    by [root], whose native [mkdir] is always fulfilled) and each decoder
    of the libraries undoes its encoder, what [writeFile] hands to the
    native module, [readFile] with the same encoding turns back into the
    contents written: a [writeFile] that does not throw hands over one
    payload for its path, and a [readFile] of that payload is fulfilled
    with the contents. *)
Theorem write_then_read_round_trip (p : value) (contents : string)
    (enc opts : value) (w : world) (s : settled result) :
  rootDir cfg p = Ok (Some root) ->
  (forall s r, utf8_encode lib s = Ok r -> utf8_decode lib r = Ok s) ->
  (forall s r, base64_encode lib s = Ok r -> base64_decode lib r = Ok s) ->
  fst (run cfg rn lib (Call_writeFile p contents enc opts) w) = Returned s ->
  exists b64,
    written p (trace (snd (run cfg rn lib
                             (Call_writeFile p contents enc opts) w)))
    = (written p (trace w) ++ [b64])%list /\
    ((forall h, native_readFile rn h p = Fulfilled b64) ->
     forall w',
       fst (run cfg rn lib (Call_readFile p enc) w')
       = Returned (Fulfilled (R_string contents))).
Proof.
  intros Hr Hu Hb Hs.
  destruct (rootDir_string _ _ Hr) as [path ->].
  revert Hs. cbn [run]. unfold writeFile. fold (encoded lib contents enc).
  destruct (encoded lib contents enc) as [b64|e] eqn:Ee; [|discriminate].
  intros _. exists b64. split.
  - run_through Hr.
    rewrite <- ?app_assoc, !written_app.
    cbn [written app strict_eq]. now rewrite String.eqb_refl.
  - intros Hread w'. unfold readFile. cbv zeta.
    run_through Hr. rewrite Hread. fold (decoded lib b64 enc).
    now rewrite (decoded_encoded _ _ _ Hu Hb Ee).
Qed.

(** X18: [readdir] gives the names of what [readDir] gives, in the same
    order, and is rejected or left pending as [readDir] is, when the root
    is in place and the native module answers [readDir] the same way each
    time. *)
Theorem readdir_names_of_readDir (p : value) (w w' : world)
    (a : settled (list file_entry)) :
  rootDir cfg p = Ok (Some root) ->
  (forall h, native_readDir rn h p = a) ->
  exists s,
    fst (run cfg rn lib (Call_readDir p) w) = Returned s /\
    fst (run cfg rn lib (Call_readdir p) w')
    = Returned match s with
               | Fulfilled (R_items items) =>
                   Fulfilled (R_names (map name items))
               | Fulfilled r => Fulfilled r
               | Rejected e => Rejected e
               | Pending => Pending
               end /\
    match s, a with
    | Fulfilled (R_items items), Fulfilled entries =>
        map name items = map fe_name entries
    | Fulfilled _, _ => False
    | Rejected e, Rejected e0 => e = converted e0
    | Pending, Pending => True
    | _, _ => False
    end.
Proof.
  intros Hr Ha. cbn [run]. run_through Hr. rewrite !Ha.
  destruct a as [entries|e|]; unfold convertError; cbn [fst snd].
  - eexists. split; [reflexivity|]. split; [reflexivity|].
    rewrite map_map. reflexivity.
  - eexists. split; [reflexivity|]. split; reflexivity.
  - eexists. split; [reflexivity|]. split; [reflexivity|exact I].
Qed.

End Passed.

Section Quiet.

Variable cfg : config.
Variable rn : native.
Variable lib : codecs.

(** X19: a call on the facade throws only in [writeFile], when the
    encoding is not supported or a library throws while the contents are
    encoded; nothing has happened by then: the guard is not entered and
    no call on the native module is made.  Every other failure is a
    rejected promise. *)
Theorem only_writeFile_throws (c : call) (w : world) (e : error) :
  (fst (run cfg rn lib c w) = Threw e <->
   exists p contents enc opts,
     c = Call_writeFile p contents enc opts /\
     encoded lib contents enc = Throw e) /\
  (fst (run cfg rn lib c w) = Threw e -> snd (run cfg rn lib c w) = w) /\
  (forall contents enc,
     supported_encoding (default_encoding enc) = false ->
     encoded lib contents enc = Throw (invalid_encoding (default_encoding enc))).
Proof.
  assert (Hw : forall p contents enc opts,
             (fst (run cfg rn lib (Call_writeFile p contents enc opts) w)
              = Threw e <-> encoded lib contents enc = Throw e) /\
             (fst (run cfg rn lib (Call_writeFile p contents enc opts) w)
              = Threw e ->
              snd (run cfg rn lib (Call_writeFile p contents enc opts) w) = w)).
  { intros p contents enc opts. cbn [run]. unfold writeFile.
    fold (encoded lib contents enc).
    destruct (encoded lib contents enc) as [b64|e'].
    - unfold returned, mbind, ret.
      match goal with
      | |- context [then_ ?g ?k ?w0] => destruct (then_ g k w0) as [s w']
      end.
      destruct s; cbn [fst snd]; split; try split; discriminate.
    - cbn. split; [split; congruence | reflexivity]. }
  split; [|split].
  - split.
    + destruct c; cbn [run]; rewrite ?fst_returned; try discriminate.
      intros H. do 4 eexists. split; [reflexivity|].
      exact (proj1 (proj1 (Hw _ _ _ _)) H).
    + intros (p & contents & enc & opts & -> & He).
      exact (proj2 (proj1 (Hw _ _ _ _)) He).
  - destruct c; cbn [run]; rewrite ?fst_returned; try discriminate.
    exact (proj2 (Hw _ _ _ _)).
  - intros contents enc. unfold supported_encoding, encoded. cbv zeta.
    destruct (strict_eq_string (default_encoding enc) "utf8");
      [discriminate|].
    destruct (strict_eq_string (default_encoding enc) "ascii");
      [discriminate|].
    destruct (strict_eq_string (default_encoding enc) "base64");
      [discriminate|reflexivity].
Qed.

Lemma quiet_ret {A} (a : A) : quiet (ret a).
Proof.
  intros w. exists []. split; [|reflexivity].
  unfold extend, ret. cbn [snd]. rewrite app_nil_r. now destruct w.
Qed.

Lemma quiet_history : quiet history.
Proof. intros w. apply (quiet_ret tt w). Qed.

Lemma quiet_emit (e : event) : plain e = true -> quiet (emit e).
Proof.
  intros He w. exists [e]. split; [reflexivity|]. cbn. now rewrite He.
Qed.

Lemma quiet_mbind {A B} (m : M A) (k : A -> M B) :
  quiet m -> (forall a, quiet (k a)) -> quiet (mbind m k).
Proof.
  intros Hm Hk w. unfold mbind. destruct (Hm w) as (d1 & H1 & P1).
  destruct (m w) as [a w1]. cbn [snd] in H1. subst w1.
  destruct (Hk a (extend w d1)) as (d2 & H2 & P2).
  exists (d1 ++ d2)%list. rewrite H2, extend_extend. split; [reflexivity|].
  now rewrite forallb_app, P1, P2.
Qed.

Lemma quiet_then {A B} (p : promise A) (k : A -> promise B) :
  quiet p -> (forall a, quiet (k a)) -> quiet (then_ p k).
Proof.
  intros Hp Hk. apply quiet_mbind; [exact Hp|].
  intros [a|e|]; [apply Hk | apply quiet_ret | apply quiet_ret].
Qed.

Lemma quiet_then_sync {A B} (p : promise A) (f : A -> except B) :
  quiet p -> quiet (then_sync p f).
Proof. intros Hp. apply quiet_then; [exact Hp|]. intros a. apply quiet_ret. Qed.

Lemma quiet_catch {A} (p : promise A) (h : error -> except A) :
  quiet p -> quiet (catch_ p h).
Proof. intros Hp. apply quiet_mbind; [exact Hp|]. intros s. apply quiet_ret. Qed.

Lemma quiet_call_native {A} (c : native_call) (r : list event -> settled A) :
  plain (Native c) = true -> quiet (call_native c r).
Proof.
  intros Hc w. rewrite call_native_eq. exists [Native c].
  split; [reflexivity|]. cbn [forallb]. now rewrite Hc.
Qed.

Lemma quiet_guard (p : value) : quiet (_ensureValidRoot cfg rn p).
Proof.
  intros w. destruct (guard_world cfg rn p w) as (d & Hw & _ & Hd).
  exists (EnsureValidRoot p :: d). split; [exact Hw|].
  destruct Hd as [-> | (x & b & ->)]; reflexivity.
Qed.

Lemma quiet_returned {A} (p : promise A) : quiet p -> quiet (returned p).
Proof. intros Hp. apply quiet_mbind; [exact Hp|]. intros s. apply quiet_ret. Qed.

Lemma quiet_fmap {A B} (f : A -> B) (p : promise A) :
  quiet p -> quiet (fmap f p).
Proof. apply quiet_then_sync. Qed.

Lemma downloads_app (a b : list event) :
  downloads (a ++ b) = (downloads a ++ downloads b)%list.
Proof.
  induction a as [|e a IH]; [reflexivity|].
  destruct e as [|c| | |]; cbn [app downloads]; try exact IH.
  destruct c; cbn [app]; now rewrite ?IH.
Qed.

Lemma plain_adds_nothing (d : list event) (ch : string) :
  forallb plain d = true ->
  downloads d = [] /\ subscriptions ch d = [] /\ removed d = 0.
Proof.
  induction d as [|e d IH]; intros H; [now repeat split|].
  cbn [forallb] in H. apply andb_true_iff in H as [He Hd].
  destruct e as [|c| | |]; try discriminate; [exact (IH Hd)|].
  destruct c; try discriminate; exact (IH Hd).
Qed.

Lemma listeners_start_nothing (l : list event) :
  forallb is_listener l = true -> downloads l = [].
Proof.
  induction l as [|e l IH]; intros H; [reflexivity|].
  cbn [forallb] in H. apply andb_true_iff in H as [He Hl].
  destruct e; try discriminate. cbn. now apply IH.
Qed.

Lemma subscriptions_other_channel (ch ch' : string) (cb : callback) (n : nat) :
  ch' <> ch -> subscriptions ch (listeners_for cfg ch' cb n) = [].
Proof.
  intros Hne. apply String.eqb_neq in Hne. unfold listeners_for.
  destruct (NativeAppEventEmitter_addListener cfg);
    destruct (DeviceEventEmitter_addListener cfg);
    cbn [app subscriptions]; rewrite ?Hne; reflexivity.
Qed.

Lemma quiet_run (c : call) :
  (forall u f b pr, c <> Call_downloadFile u f b pr) ->
  quiet (run cfg rn lib c).
Proof.
  intros Hc.
  destruct c; cbn [run];
    try solve [apply quiet_returned, quiet_fmap;
               unfold readdir, readDir, stat, exists_, readFile,
                 moveFile, unlink, mkdir, _readDir, _stat, _exists,
                 _readFile, _moveFile, _unlink, _mkdir;
               repeat first [ apply quiet_guard
                            | apply quiet_call_native; reflexivity
                            | apply quiet_catch | apply quiet_then_sync
                            | apply quiet_then | intro ]].
  - unfold writeFile. fold (encoded lib contents encoding).
    destruct (encoded lib contents encoding) as [b64|e].
    + apply quiet_mbind; [|intros o; apply quiet_ret].
      apply quiet_returned, quiet_then; [apply quiet_guard|].
      intros _. apply quiet_catch, quiet_call_native. reflexivity.
    + apply quiet_mbind; [apply quiet_ret|]. intros o. apply quiet_ret.
  - now destruct (Hc fromUrl toFile begin progress).
Qed.

(** X20: only [downloadFile] takes a job identifier, subscribes to events,
    removes subscriptions or starts a download.  The identifier it takes
    is the one handed to the native download, which is started at most
    once, and every subscription is taken on the begin or the progress
    channel of that identifier. *)
Theorem job_id_routing (c : call) (w : world) :
  match c with
  | Call_downloadFile u f b pr =>
      let w' := snd (run cfg rn lib c w) in
      let j := add1 (jobId w) in
      jobId w' = j /\
      (downloads (trace w') = downloads (trace w) \/
       downloads (trace w') = (downloads (trace w) ++ [(u, f, j)])%list) /\
      forall ch, ch <> begin_channel j -> ch <> progress_channel j ->
        subscriptions ch (trace w') = subscriptions ch (trace w)
  | _ =>
      let w' := snd (run cfg rn lib c w) in
      jobId w' = jobId w /\
      downloads (trace w') = downloads (trace w) /\
      removed (trace w') = removed (trace w) /\
      forall ch, subscriptions ch (trace w') = subscriptions ch (trace w)
  end.
Proof.
  assert (Hq : (forall u f b pr, c <> Call_downloadFile u f b pr) ->
               jobId (snd (run cfg rn lib c w)) = jobId w /\
               downloads (trace (snd (run cfg rn lib c w)))
               = downloads (trace w) /\
               removed (trace (snd (run cfg rn lib c w)))
               = removed (trace w) /\
               forall ch, subscriptions ch (trace (snd (run cfg rn lib c w)))
                          = subscriptions ch (trace w)).
  { intros Hc. destruct (quiet_run c Hc w) as (d & -> & Hd).
    cbn [extend jobId trace].
    rewrite downloads_app, removed_app.
    destruct (plain_adds_nothing d "" Hd) as (-> & _ & ->).
    rewrite app_nil_r, Nat.add_0_r. repeat split.
    intros ch. rewrite subscriptions_app.
    destruct (plain_adds_nothing d ch Hd) as (_ & -> & _).
    now rewrite app_nil_r. }
  destruct c; cbv zeta; try (apply Hq; discriminate).
  clear Hq. cbn [run]. rewrite snd_returned, snd_fmap.
  destruct (downloadFile_run cfg rn fromUrl toFile begin progress w)
    as (d & Hd & Heq).
  cbn zeta in Heq. rewrite Heq. clear Heq.
  destruct (registered_listeners cfg (add1 (jobId w)) begin progress
              (List.length (trace w))
              (List.length (trace w) + emitters cfg)) as [Hl _].
  cbn zeta in Hl.
  pose proof (listeners_start_nothing _ Hl) as Hld.
  rewrite downloads_app in Hld. apply app_eq_nil in Hld as [Hbd Hpd].
  assert (Hdd : downloads d = []).
  { destruct Hd as [-> | (x & e & ->)]; reflexivity. }
  assert (Hds : forall ch, subscriptions ch d = []).
  { intros ch. destruct Hd as [-> | (x & e & ->)]; reflexivity. }
  assert (Hrd : downloads (removals cfg progress (List.length (trace w))) = []).
  { unfold removals, held_ios, held_android.
    destruct (NativeAppEventEmitter_addListener cfg);
      destruct (DeviceEventEmitter_addListener cfg); reflexivity. }
  assert (Hbs : forall ch, ch <> begin_channel (add1 (jobId w)) ->
                  subscriptions ch
                    (begin_listeners cfg (add1 (jobId w)) begin
                       (List.length (trace w))) = []).
  { intros ch Hb. apply subscriptions_other_channel. congruence. }
  assert (Hps : forall ch, ch <> progress_channel (add1 (jobId w)) ->
                  subscriptions ch
                    (progress_listeners cfg (add1 (jobId w)) progress
                       (List.length (trace w) + emitters cfg)) = []).
  { intros ch Hp. unfold progress_listeners.
    destruct (truthy progress); [|reflexivity].
    apply subscriptions_other_channel. congruence. }
  destruct (fst (_ensureValidRoot cfg rn toFile _)) as [a|e|];
    [match goal with
     | |- context [native_downloadFile rn ?h ?u ?f ?j] =>
         destruct (native_downloadFile rn h u f j)
     end|..];
    cbn [snd extend jobId trace];
    (split; [reflexivity|]);
    change (EnsureValidRoot toFile :: ?t)
      with ([EnsureValidRoot toFile] ++ t)%list;
    try change (Native (N_downloadFile fromUrl toFile (add1 (jobId w)))
                :: removals cfg progress (List.length (trace w)))
      with ([Native (N_downloadFile fromUrl toFile (add1 (jobId w)))]
            ++ removals cfg progress (List.length (trace w)))%list;
    rewrite !downloads_app, Hbd, Hpd, Hdd, ?Hrd;
    cbn [downloads app]; rewrite ?app_nil_r;
    (split; [auto|]);
    intros ch Hb Hp;
    rewrite !subscriptions_app; cbn [subscriptions];
    rewrite ?subscriptions_app, (Hbs ch Hb), (Hps ch Hp), Hds,
      ?subscriptions_removals;
    cbn [subscriptions app];
    now rewrite ?subscriptions_removals, ?app_nil_r.
Qed.

End Quiet.

Lemma unset_appID_rejects_witness :
  (appID Scenario.unset = None \/ appID Scenario.unset = Some "") /\
  target (Call_stat (VString "/data/cache/a")) = VString "/data/cache/a" /\
  NSCachesDirectoryPath Scenario.unset = VString "/data/cache" /\
  fst (run Scenario.unset Sample.rn Sample.lib
         (Call_stat (VString "/data/cache/a")) initial)
  = Returned (Rejected (Error_ (Some "Global appID must be set."))) /\
  natives (trace (snd (run Scenario.unset Sample.rn Sample.lib
                         (Call_stat (VString "/data/cache/a")) initial)))
  = natives (trace initial).
Proof.
  split; [left; reflexivity|]. split; [reflexivity|]. split; [reflexivity|].
  destruct (unset_appID_rejects Scenario.unset Sample.rn Sample.lib
              (Call_stat (VString "/data/cache/a")) initial
              "/data/cache/a" "/data/cache")
    as [[e He] | H]; [left; reflexivity | reflexivity | reflexivity | | exact H].
  discriminate He.
Defined.

Lemma non_string_path_rejects_witness :
  (forall s, target (Call_unlink (VNumber 7)) <> VString s) /\
  fst (run Sample.cfg Sample.rn Sample.lib (Call_unlink (VNumber 7)) initial)
  = Returned (Rejected
      (Error_ (Some "Path must be a string. Provided was number"))) /\
  natives (trace (snd (run Sample.cfg Sample.rn Sample.lib
                         (Call_unlink (VNumber 7)) initial)))
  = natives (trace initial).
Proof.
  split; [intros s; discriminate|].
  destruct (non_string_path_rejects Sample.cfg Sample.rn Sample.lib
              (Call_unlink (VNumber 7)) initial)
    as [[e He] | H]; [intros s; discriminate | | exact H].
  discriminate He.
Defined.

Lemma root_mkdir_failure_stops_witness :
  rootDir Sample.cfg (target (Call_exists Sample.cache_file))
  = Ok (Some "/data/cache/siphon-data-app") /\
  processDirPath Sample.cfg (NSCachesDirectoryPath Sample.cfg)
  = Ok "/data/cache/siphon-data-app" /\
  fulfilled (Rejected Scenario.denied : settled unit) = false /\
  fst (run Sample.cfg Scenario.rn_no_mkdir Sample.lib
         (Call_exists Sample.cache_file) initial)
  = Returned (Rejected Scenario.denied) /\
  natives (trace (snd (run Sample.cfg Scenario.rn_no_mkdir Sample.lib
                         (Call_exists Sample.cache_file) initial)))
  = [N_mkdir (VString "/data/cache/siphon-data-app") true].
Proof.
  split; [reflexivity|]. split; [reflexivity|]. split; [reflexivity|].
  destruct (root_mkdir_failure_stops Sample.cfg Scenario.rn_no_mkdir
              Sample.lib (Call_exists Sample.cache_file) initial
              "/data/cache/siphon-data-app" "/data/cache/siphon-data-app"
              (Rejected Scenario.denied))
    as [[e He] | H];
    [reflexivity | reflexivity | reflexivity | reflexivity | | exact H].
  discriminate He.
Defined.

Lemma guard_creates_owning_root_witness :
  exports Sample.cfg
  = Ok {| CachesDirectoryPath := "/data/cache/siphon-data-app";
          DocumentDirectoryPath := "/data/files/siphon-data-app";
          LibraryDirectoryPath := None |} /\
  rootDir Sample.cfg Sample.download_target
  = Ok (Some "/data/files/siphon-data-app") /\
  In "/data/files/siphon-data-app"
    ["/data/cache/siphon-data-app"; "/data/files/siphon-data-app"] /\
  _ensureValidRoot Sample.cfg Sample.rn Sample.download_target initial
  = (Fulfilled tt,
     extend initial
       [EnsureValidRoot Sample.download_target;
        Native (N_mkdir (VString "/data/files/siphon-data-app") false)]).
Proof.
  split; [reflexivity|]. split; [reflexivity|].
  apply (guard_creates_owning_root Sample.cfg Sample.rn
           Sample.download_target initial "/data/files/siphon-data-app"
           {| CachesDirectoryPath := "/data/cache/siphon-data-app";
              DocumentDirectoryPath := "/data/files/siphon-data-app";
              LibraryDirectoryPath := None |});
    reflexivity.
Defined.

Lemma native_failure_is_converted_witness :
  rootDir Sample.cfg (target (Call_stat Sample.cache_file))
  = Ok (Some "/data/cache/siphon-data-app") /\
  delegate Sample.lib (Call_stat Sample.cache_file) initial
  = Some (N_stat Sample.cache_file) /\
  (forall h, native_answer Scenario.rn_no_stat h (N_stat Sample.cache_file)
             = Rejected Scenario.denied) /\
  converted Scenario.denied
  = MkError false None None (Some "EACCES") (VNumber 13) /\
  fst (run Sample.cfg Scenario.rn_no_stat Sample.lib
         (Call_stat Sample.cache_file) initial)
  = Returned (Rejected (converted Scenario.denied)) /\
  natives (trace (snd (run Sample.cfg Scenario.rn_no_stat Sample.lib
                         (Call_stat Sample.cache_file) initial)))
  = [N_mkdir (VString "/data/cache/siphon-data-app") true;
     N_stat Sample.cache_file] /\
  removed (trace (snd (run Sample.cfg Scenario.rn_no_stat Sample.lib
                         (Call_stat Sample.cache_file) initial))) = 0.
Proof.
  split; [reflexivity|]. split; [reflexivity|].
  split; [intros h; reflexivity|]. split; [reflexivity|].
  apply (native_failure_is_converted Sample.cfg Scenario.rn_no_stat
           Sample.lib "/data/cache/siphon-data-app"
           "/data/cache/siphon-data-app" eq_refl (fun _ => eq_refl)
           (Call_stat Sample.cache_file) initial (N_stat Sample.cache_file)
           Scenario.denied);
    [reflexivity | reflexivity | intros h; reflexivity].
Defined.

Lemma native_success_is_fulfilled_witness :
  rootDir Sample.cfg
    (target (Call_downloadFile Sample.url Sample.download_target
               VUndefined (VFunction "onProgress")))
  = Ok (Some "/data/files/siphon-data-app") /\
  delegate Sample.lib
    (Call_downloadFile Sample.url Sample.download_target
       VUndefined (VFunction "onProgress")) initial
  = Some (N_downloadFile Sample.url Sample.download_target 1) /\
  (exists r,
     fst (run Sample.cfg Sample.rn Sample.lib
            (Call_downloadFile Sample.url Sample.download_target
               VUndefined (VFunction "onProgress")) initial)
     = Returned (Fulfilled r)) /\
  natives (trace (snd (run Sample.cfg Sample.rn Sample.lib
                         (Call_downloadFile Sample.url Sample.download_target
                            VUndefined (VFunction "onProgress")) initial)))
  = [N_mkdir (VString "/data/files/siphon-data-app") false;
     N_downloadFile Sample.url Sample.download_target 1] /\
  removed (trace (snd (run Sample.cfg Sample.rn Sample.lib
                         (Call_downloadFile Sample.url Sample.download_target
                            VUndefined (VFunction "onProgress")) initial)))
  = 1.
Proof.
  split; [reflexivity|]. split; [reflexivity|].
  apply (native_success_is_fulfilled Sample.cfg Sample.rn Sample.lib
           "/data/files/siphon-data-app" "/data/cache/siphon-data-app"
           eq_refl (fun _ => eq_refl)
           (Call_downloadFile Sample.url Sample.download_target
              VUndefined (VFunction "onProgress")) initial
           (N_downloadFile Sample.url Sample.download_target 1));
    [reflexivity | reflexivity | intros h; reflexivity
    | intros p enc; discriminate].
Defined.

Lemma write_then_read_round_trip_witness :
  processDirPath Sample.cfg (NSCachesDirectoryPath Sample.cfg)
  = Ok "/data/cache/siphon-data-app" /\
  (forall h, native_mkdir Sample.rn h (VString "/data/cache/siphon-data-app")
               ("/data/cache/siphon-data-app" =? "/data/cache/siphon-data-app")
             = Fulfilled tt) /\
  rootDir Sample.cfg Sample.cache_file
  = Ok (Some "/data/cache/siphon-data-app") /\
  fst (run Sample.cfg Sample.rn Sample.lib
         (Call_writeFile Sample.cache_file "aGk=" VUndefined
            VUndefined) initial)
  = Returned (Fulfilled R_unit) /\
  exists b64,
    written Sample.cache_file
      (trace (snd (run Sample.cfg Sample.rn Sample.lib
                     (Call_writeFile Sample.cache_file "aGk="
                        VUndefined VUndefined) initial)))
    = (written Sample.cache_file (trace initial) ++ [b64])%list /\
    ((forall h, native_readFile Sample.rn h Sample.cache_file = Fulfilled b64) ->
     forall w',
       fst (run Sample.cfg Sample.rn Sample.lib
              (Call_readFile Sample.cache_file VUndefined) w')
       = Returned (Fulfilled (R_string "aGk="))).
Proof.
  split; [reflexivity|]. split; [intros h; reflexivity|].
  split; [reflexivity|]. split; [reflexivity|].
  apply (write_then_read_round_trip Sample.cfg Sample.rn Sample.lib
           "/data/cache/siphon-data-app" "/data/cache/siphon-data-app"
           eq_refl (fun _ => eq_refl)
           Sample.cache_file "aGk=" VUndefined VUndefined initial
           (Fulfilled R_unit));
    [reflexivity | intros s r H; injection H as ->; reflexivity
    | intros s r H; injection H as ->; reflexivity | reflexivity].
Defined.

Lemma readdir_names_of_readDir_witness :
  rootDir Sample.cfg Sample.cache_dir
  = Ok (Some "/data/cache/siphon-data-app") /\
  fst (run Sample.cfg Sample.rn Sample.lib (Call_readdir Sample.cache_dir)
         initial)
  = Returned (Fulfilled (R_names ["a.txt"])) /\
  exists s,
    fst (run Sample.cfg Sample.rn Sample.lib (Call_readDir Sample.cache_dir)
           initial) = Returned s /\
    fst (run Sample.cfg Sample.rn Sample.lib (Call_readdir Sample.cache_dir)
           initial)
    = Returned match s with
               | Fulfilled (R_items items) =>
                   Fulfilled (R_names (map name items))
               | Fulfilled r => Fulfilled r
               | Rejected e => Rejected e
               | Pending => Pending
               end /\
    match s, native_readDir Sample.rn [] Sample.cache_dir with
    | Fulfilled (R_items items), Fulfilled entries =>
        map name items = map fe_name entries
    | Fulfilled _, _ => False
    | Rejected e, Rejected e0 => e = converted e0
    | Pending, Pending => True
    | _, _ => False
    end.
Proof.
  split; [reflexivity|]. split; [reflexivity|].
  apply (readdir_names_of_readDir Sample.cfg Sample.rn Sample.lib
           "/data/cache/siphon-data-app" "/data/cache/siphon-data-app"
           eq_refl (fun _ => eq_refl)
           Sample.cache_dir initial initial
           (native_readDir Sample.rn [] Sample.cache_dir));
    [reflexivity | intros h; reflexivity].
Defined.

End FacadeProps.
